(** * Delivery-status synchronisation: a shallow embedding

    The development follows the two collaborating processes of the
    repository:

    - [backend/server.js]: the status store ([messageStatuses]), the webhook
      receiver, the WebSocket fan-out and the query endpoints;
    - [frontend/src/App.tsx]: the dispatch of sends (with the free-text
      fallback), the batch loop and the reconciliation of pushed status
      updates against the identifiers recorded by the client.

    JavaScript values that reach the code from outside (request bodies,
    provider responses, pushed messages) are modelled as parsed JSON plus
    [undefined]; exceptions are explicit; the provider, the clock and the
    operator are inputs of the functions that consult them. *)

From Stdlib Require Import Ascii.
From stdpp Require Import gmap strings list fin_maps sorting pretty.

Set Warnings "-clear-no-such-hyp".

Open Scope string_scope.
Open Scope list_scope.
Open Scope nat_scope.

(** ** JavaScript values *)

Module JS.

(** A value produced by [JSON.parse]. Numeric literals are kept as integers:
    the code only tests numbers for truthiness and identity. *)
#[local] Unset Elimination Schemes.
Inductive json : Type :=
  | JNull
  | JBool (b : bool)
  | JNum (n : Z)
  | JStr (s : string)
  | JArr (items : list json)
  | JObj (fields : list (string * json)).
#[local] Set Elimination Schemes.

(** A JavaScript value as the handlers see it: [None] is [undefined]. *)
Definition jsval : Type := option json.

Definition undefined : jsval := None.

(** Outcome of evaluating an expression or statement: a value, or a thrown
    exception (here always the [TypeError] of a property read on [null] or
    [undefined], or of calling something that is not a function). *)
Inductive completion (A : Type) : Type :=
  | Normal (a : A)
  | Throw.
Arguments Normal {A} a.
Arguments Throw {A}.

(** [ToBoolean]. *)
Definition truthy (v : jsval) : bool :=
  match v with
  | None | Some JNull => false
  | Some (JBool b) => b
  | Some (JNum n) => negb (n =? 0)%Z
  | Some (JStr s) => negb (String.eqb s "")
  | Some (JArr _) | Some (JObj _) => true
  end.

(** Own property of a parsed object; the first binding of a key is the
    object's property. *)
Fixpoint own_property (key : string) (fields : list (string * json)) : jsval :=
  match fields with
  | [] => None
  | (k, v) :: rest => if String.eqb k key then Some v else own_property key rest
  end.

(** [v.key] for the property names the source reads ([object], [entry],
    [changes], [field], [value], [statuses], [messages], [id], [status],
    [type], [messageId]): none of them is defined on the prototypes of
    arrays, strings, numbers or booleans, so only objects answer. *)
Definition get (v : jsval) (key : string) : completion jsval :=
  match v with
  | None | Some JNull => Throw
  | Some (JObj fields) => Normal (own_property key fields)
  | Some _ => Normal None
  end.

(** [v?.key]. *)
Definition get_opt (v : jsval) (key : string) : completion jsval :=
  match v with
  | None | Some JNull => Normal None
  | _ => get v key
  end.

(** [v?.[0]]: element 0 of an array, first character of a string, property
    ["0"] of an object. *)
Definition get_opt_0 (v : jsval) : jsval :=
  match v with
  | Some (JArr items) => head items
  | Some (JStr (String c _)) => Some (JStr (String c EmptyString))
  | Some (JObj fields) => own_property "0" fields
  | _ => None
  end.

(** [a === b] and the SameValueZero of [Map] keys coincide on these values:
    primitives compare by value, and two arrays or objects obtained from
    parsing are never the same reference. *)
Definition strict_eq (a b : jsval) : bool :=
  match a, b with
  | None, None => true
  | Some JNull, Some JNull => true
  | Some (JBool x), Some (JBool y) => Bool.eqb x y
  | Some (JNum x), Some (JNum y) => (x =? y)%Z
  | Some (JStr x), Some (JStr y) => String.eqb x y
  | _, _ => false
  end.

Definition str (s : string) : jsval := Some (JStr s).

End JS.
Import JS.

(** ** The server: [backend/server.js] *)

Module Server.

(** *** The status store

    [messageStatuses] is a [Map]: entries are kept in the order in which
    their keys were first set, and keys are compared by SameValueZero. *)
Definition Map : Type := list (jsval * jsval).

(** [new Map()] *)
Definition Map_new : Map := [].

(** [m.set(key, value)] *)
Fixpoint Map_set (key value : jsval) (m : Map) : Map :=
  match m with
  | [] => [(key, value)]
  | (k, v) :: rest =>
      if strict_eq k key then (k, value) :: rest
      else (k, v) :: Map_set key value rest
  end.

(** [m.get(key)]; an absent key yields [undefined]. *)
Fixpoint Map_get (key : jsval) (m : Map) : jsval :=
  match m with
  | [] => undefined
  | (k, v) :: rest => if strict_eq k key then v else Map_get key rest
  end.

(** [m.has(key)] *)
Definition Map_has (key : jsval) (m : Map) : bool :=
  existsb (λ kv, strict_eq kv.1 key) m.

(** A plain object under construction: property name to value. A property
    may hold [undefined]. *)
Abbreviation object := (gmap string jsval).

(** What [JSON.stringify] (and [res.json]) keeps of a plain object whose
    values are JSON values or [undefined]: properties holding [undefined] are
    left out. *)
Definition JSON_stringify_object (o : object) : gmap string json :=
  omap id o.

Section Store.

(** [ToPropertyKey], the conversion of a [Map] key to a property name, is
    a primitive of the runtime; all that is used of it is that it leaves
    strings alone. *)
Variable ToPropertyKey : jsval → string.

(** [Object.fromEntries(m)]: entries are defined in iteration order, a
    later entry overriding an earlier one with the same property name. *)
Definition Object_fromEntries (m : Map) : object :=
  foldl (λ o kv, <[ToPropertyKey kv.1 := kv.2]> o) ∅ m.

End Store.

(** The store holds string identifiers, each once. *)
Definition string_keyed (m : Map) : Prop :=
  ∃ ks : list string, m.*1 = str <$> ks ∧ NoDup ks.

(** The store operation of the specification, [recordStatus(id, state)]:
    the [messageStatuses.set(messageId, statusType)] of the webhook, for an
    identifier that is a string. *)
Definition recordStatus (id : string) (state : jsval) (m : Map) : Map :=
  Map_set (str id) state m.

(** A sequence of [recordStatus] calls, oldest first. *)
Definition record_all (writes : list (string * jsval)) (m : Map) : Map :=
  foldl (λ m w, recordStatus w.1 w.2 m) m writes.

(** The state most recently written for [id] in a sequence of writes. *)
Definition last_written (id : string) (writes : list (string * jsval)) : option jsval :=
  snd <$> last (filter (λ w, w.1 = id) writes).

(** The identifiers written by a sequence of writes. *)
Definition written (writes : list (string * jsval)) : gset string :=
  list_to_set writes.*1.

(** *** Messages pushed to observers: the argument of [JSON.stringify] in
    the connection handler and in [broadcastStatusUpdate], after
    serialisation. *)
Inductive ws_message : Type :=
  | Initial (statuses : gmap string json)
      (* {type: 'initial', statuses} *)
  | StatusUpdate (messageId status : jsval).
      (* {type: 'status_update', messageId, status}; a field holding
         undefined is left out by JSON.stringify *)

(** The parsed form of a pushed message, as [JSON.parse] returns it to the
    client. *)
Definition optional_field (key : string) (v : jsval) : list (string * json) :=
  match v with Some j => [(key, j)] | None => [] end.

Definition wire (m : ws_message) : json :=
  match m with
  | Initial statuses =>
      JObj [("type", JStr "initial"); ("statuses", JObj (map_to_list statuses))]
  | StatusUpdate messageId status =>
      JObj ([("type", JStr "status_update")]
              ++ optional_field "messageId" messageId
              ++ optional_field "status" status)
  end.

(** *** Observers

    A member of [wss.clients]: the connection handle and its [readyState]
    (0 CONNECTING, 1 OPEN, 2 CLOSING, 3 CLOSED). *)
Record ws_client : Type := { handle : nat; readyState : nat }.

Definition OPEN : nat := 1.

(** One [client.send(message)]. *)
Definition sent : Type := (nat * ws_message)%type.

(** [broadcastStatusUpdate(messageId, status)] over [wss.clients]. *)
Definition broadcastStatusUpdate (clients : list ws_client)
    (messageId status : jsval) : list sent :=
  let message := StatusUpdate messageId status in
  flat_map (λ client,
      if Nat.eqb (readyState client) OPEN then [(handle client, message)] else [])
    clients.

(** *** Handlers

    What a handler touches: the store, and the messages it has sent so far
    (oldest first). The set of clients does not change while a handler
    runs. *)
Record effects : Type := { store : Map; outbox : list sent }.

(** A statement of a handler: it may throw, and what it did before throwing
    stays done. *)
Definition stmt (A : Type) : Type := effects → completion A * effects.

Definition ret {A} (a : A) : stmt A := λ e, (Normal a, e).
Definition throw {A} : stmt A := λ e, (Throw, e).
Definition bind {A B} (c : stmt A) (k : A → stmt B) : stmt B :=
  λ e, match c e with
       | (Normal a, e') => k a e'
       | (Throw, e') => (Throw, e')
       end.
Definition eval {A} (c : completion A) : stmt A := λ e, (c, e).

Notation "'let!' x ':=' c 'in' k" := (bind c (λ x, k))
  (at level 10, x name, c at level 100, k at level 200).
Notation "'exec' c 'in' k" := (bind c (λ _, k))
  (at level 10, c at level 100, k at level 200).

(** [items.forEach(callback)] on the elements of an array. *)
Fixpoint for_each (callback : json → stmt unit) (items : list json) : stmt unit :=
  match items with
  | [] => ret tt
  | item :: rest => exec callback item in for_each callback rest
  end.

(** [v.forEach(callback)] for a [v] that is neither [null] nor [undefined]:
    only arrays have a [forEach] to call. *)
Definition forEach (v : jsval) (callback : json → stmt unit) : stmt unit :=
  match v with
  | Some (JArr items) => for_each callback items
  | _ => throw
  end.

(** [v?.forEach(callback)] *)
Definition forEach_opt (v : jsval) (callback : json → stmt unit) : stmt unit :=
  match v with
  | None | Some JNull => ret tt
  | _ => forEach v callback
  end.

(** [if (v) { body }] *)
Definition when (v : jsval) (body : stmt unit) : stmt unit :=
  if truthy v then body else ret tt.

(** An HTTP response: status code and body text. *)
Record response : Type := { code : nat; text : string }.

Section Handlers.

Variable clients : list ws_client.

(** The callback of [value.statuses.forEach] (lines 98-109). *)
Definition on_status (status : json) : stmt unit :=
  let! messageId := eval (get (Some status) "id") in
  let! statusType := eval (get (Some status) "status") in
  λ e, (Normal tt,
        {| store := Map_set messageId statusType (store e);
           outbox := outbox e ++ broadcastStatusUpdate clients messageId statusType |}).

(** The callback of [value.messages.forEach]: it only logs. *)
Definition on_message (message : json) : stmt unit := ret tt.

(** The callback of [entry.changes?.forEach] (lines 92-119). *)
Definition on_change (change : json) : stmt unit :=
  let! field := eval (get (Some change) "field") in
  if strict_eq field (str "messages") then
    let! value := eval (get (Some change) "value") in
    let! statuses := eval (get value "statuses") in
    exec when statuses (forEach statuses on_status) in
    let! messages := eval (get value "messages") in
    when messages (forEach messages on_message)
  else ret tt.

(** The callback of [body.entry?.forEach] (lines 91-120). *)
Definition on_entry (entry : json) : stmt unit :=
  let! changes := eval (get (Some entry) "changes") in
  forEach_opt changes on_change.

(** The [try] block of [app.post('/webhook')]. *)
Definition webhook_try (body : jsval) : stmt response :=
  let! object := eval (get body "object") in
  if strict_eq object (str "whatsapp_business_account") then
    let! entry := eval (get body "entry") in
    exec forEach_opt entry on_entry in
    ret {| code := 200; text := "EVENT_RECEIVED" |}
  else
    ret {| code := 404; text := "Not Found" |}.

(** [app.post('/webhook')]: the [try] block and its [catch]. *)
Definition webhook_post (body : jsval) (e : effects) : response * effects :=
  match webhook_try body e with
  | (Normal r, e') => (r, e')
  | (Throw, e') => ({| code := 500; text := "Internal Server Error" |}, e')
  end.

End Handlers.

(** [wss.on('connection')]: what is sent to the new client [ws]. *)
Definition on_connection (ToPropertyKey : jsval → string)
    (messageStatuses : Map) (ws : nat) : list sent :=
  let allStatuses := Object_fromEntries ToPropertyKey messageStatuses in
  [(ws, Initial (JSON_stringify_object allStatuses))].

(** [app.get('/api/statuses')]: the body of the JSON response. *)
Definition api_statuses (ToPropertyKey : jsval → string)
    (messageStatuses : Map) : gmap string json :=
  let allStatuses := Object_fromEntries ToPropertyKey messageStatuses in
  JSON_stringify_object allStatuses.

(** [app.get('/api/status/:messageId')]: the [status] field of the
    response, [status || 'unknown']. *)
Definition api_status (messageStatuses : Map) (messageId : string) : jsval :=
  let status := Map_get (str messageId) messageStatuses in
  if truthy status then status else str "unknown".

(** [app.get('/webhook')]: the verification handshake. *)
Definition webhook_get (WEBHOOK_VERIFY_TOKEN : string)
    (mode token challenge : jsval) : nat * jsval :=
  if strict_eq mode (str "subscribe") && strict_eq token (str WEBHOOK_VERIFY_TOKEN)
  then (200, challenge)
  else (403, str "Forbidden").

(** *** The server between two events

    [wss.clients] is maintained by the WebSocket library: a client is added,
    open, when its handshake completes (the ['connection'] event follows),
    its [readyState] becomes 2 when a close handshake starts, and it is
    removed from the set when the socket has closed. *)
Record server : Type := { messageStatuses : Map; wss_clients : list ws_client }.

Inductive event : Type :=
  | Connection (ws : nat)
  | Closing (ws : nat)
  | Close (ws : nat)
  | WebhookPost (body : jsval).

Definition set_readyState (ws state : nat) (c : ws_client) : ws_client :=
  if Nat.eqb (handle c) ws then {| handle := ws; readyState := state |} else c.

(** One event: the next server, and the messages sent while handling it. *)
Definition step (ToPropertyKey : jsval → string) (s : server) (ev : event)
    : server * list sent :=
  match ev with
  | Connection ws =>
      ({| messageStatuses := messageStatuses s;
          wss_clients := wss_clients s ++ [{| handle := ws; readyState := OPEN |}] |},
       on_connection ToPropertyKey (messageStatuses s) ws)
  | Closing ws =>
      ({| messageStatuses := messageStatuses s;
          wss_clients := map (set_readyState ws 2) (wss_clients s) |}, [])
  | Close ws =>
      ({| messageStatuses := messageStatuses s;
          wss_clients := filter (λ c, handle c ≠ ws) (wss_clients s) |}, [])
  | WebhookPost body =>
      let '(_, e) := webhook_post (wss_clients s) body
                       {| store := messageStatuses s; outbox := [] |} in
      ({| messageStatuses := store e; wss_clients := wss_clients s |}, outbox e)
  end.

(** A run: the final server and everything sent, oldest first. *)
Fixpoint run (ToPropertyKey : jsval → string) (s : server) (evs : list event)
    : server * list sent :=
  match evs with
  | [] => (s, [])
  | ev :: rest =>
      let '(s1, out1) := step ToPropertyKey s ev in
      let '(s2, out2) := run ToPropertyKey s1 rest in
      (s2, out1 ++ out2)
  end.

Definition initial_server : server :=
  {| messageStatuses := Map_new; wss_clients := [] |}.

(** *** Shapes of callback envelopes *)

(** A status notification of the provider: [{id, status}]; a notification
    whose state is [undefined] has no [status] field. *)
Definition notification (w : string * jsval) : json :=
  JObj ([("id", JStr w.1)] ++ optional_field "status" w.2).

(** The envelope in which the provider reports a list of status
    notifications. *)
Definition envelope (statuses : list json) : jsval :=
  Some (JObj [("object", JStr "whatsapp_business_account");
              ("entry", JArr [JObj [("changes", JArr [JObj
                 [("field", JStr "messages");
                  ("value", JObj [("statuses", JArr statuses)])]])]])]).

(** An expected field is missing: absent, or [null]. *)
Definition missing (v : jsval) : Prop := v = None ∨ v = Some JNull.

(** A change that reports no status: another kind of event, or a
    [messages] change whose value has no [statuses] (or an empty list of
    them), with inbound user messages or none. *)
Inductive change_without_statuses : json → Prop :=
  | unexpected_event fields :
      own_property "field" fields ≠ str "messages" →
      change_without_statuses (JObj fields)
  | no_statuses fields value :
      own_property "field" fields = str "messages" →
      own_property "value" fields = Some (JObj value) →
      missing (own_property "statuses" value)
        ∨ own_property "statuses" value = Some (JArr []) →
      missing (own_property "messages" value)
        ∨ (∃ items, own_property "messages" value = Some (JArr items)) →
      change_without_statuses (JObj fields).

(** An entry that reports no status: its [changes] are missing, or none of
    them reports one. *)
Inductive entry_without_statuses : json → Prop :=
  | missing_changes fields :
      missing (own_property "changes" fields) →
      entry_without_statuses (JObj fields)
  | silent_changes fields changes :
      own_property "changes" fields = Some (JArr changes) →
      Forall change_without_statuses changes →
      entry_without_statuses (JObj fields).

(** A recognised envelope that reports no status: its [entry] array is
    missing, or none of its entries reports one. *)
Inductive recognised_without_statuses : jsval → Prop :=
  | missing_entry fields :
      own_property "object" fields = str "whatsapp_business_account" →
      missing (own_property "entry" fields) →
      recognised_without_statuses (Some (JObj fields))
  | silent_entries fields entries :
      own_property "object" fields = str "whatsapp_business_account" →
      own_property "entry" fields = Some (JArr entries) →
      Forall entry_without_statuses entries →
      recognised_without_statuses (Some (JObj fields)).

(** A conversion of keys that is right on strings, to evaluate examples. *)
Definition string_key (v : jsval) : string :=
  match v with Some (JStr s) => s | _ => "" end.

(** The observer [ws] is in [wss.clients] with its channel open. *)
Definition open_observer (clients : list ws_client) (ws : nat) : Prop :=
  ∃ c, c ∈ clients ∧ handle c = ws ∧ readyState c = OPEN.

(** A handler only adds to the outbox, and what it adds are status updates
    addressed to open observers. *)
Definition pushes_to_open (clients : list ws_client) (e e' : effects) : Prop :=
  ∃ extra, outbox e' = outbox e ++ extra
    ∧ Forall (λ sm : sent, open_observer clients sm.1
                ∧ ∃ id st, sm.2 = StatusUpdate id st) extra.

Definition pushing {A} (clients : list ws_client) (c : stmt A) : Prop :=
  ∀ e, pushes_to_open clients e (c e).2.

(** The messages of an outbox that went to observer [ws]. *)
Definition received (ws : nat) (out : list sent) : list ws_message :=
  omap (λ sm : sent, if Nat.eqb sm.1 ws then Some sm.2 else None) out.

(** *** The verification handshake and the reading of runs *)

(** [process.env.WEBHOOK_VERIFY_TOKEN || 'your_verify_token_here']: a
    variable of the environment is a string, or is not set. *)
Definition verify_token (configured : option string) : string :=
  match configured with
  | Some token => if truthy (str token) then token else "your_verify_token_here"
  | None => "your_verify_token_here"
  end.

(** A sequence of [messageStatuses.set(messageId, statusType)], oldest
    first, whatever the keys are. *)
Definition perform (writes : list (jsval * jsval)) (m : Map) : Map :=
  foldl (λ m w, Map_set w.1 w.2 m) m writes.

(** The broadcasts of a sequence of writes. *)
Definition pushes (clients : list ws_client) (writes : list (jsval * jsval)) : list sent :=
  flat_map (λ w, broadcastStatusUpdate clients w.1 w.2) writes.

(** A handler performed [writes], broadcasting each of them. *)
Definition performs (clients : list ws_client) (writes : list (jsval * jsval))
    (e e' : effects) : Prop :=
  store e' = perform writes (store e)
  ∧ outbox e' = outbox e ++ pushes clients writes.

Definition performing {A} (clients : list ws_client) (c : stmt A) : Prop :=
  ∀ e, ∃ writes, performs clients writes e (c e).2.

(** How many members of [wss.clients] are the observer [ws] with an open
    channel. *)
Definition open_count (ws : nat) (clients : list ws_client) : nat :=
  length (List.filter (λ c, Nat.eqb (handle c) ws && Nat.eqb (readyState c) OPEN)
            clients).

(** What an observer makes of the messages it received, starting from a
    copy of the store: each status update is a write. *)
Definition replay (m : Map) (messages : list ws_message) : Map :=
  foldl (λ m message,
           match message with
           | StatusUpdate messageId status => Map_set messageId status m
           | Initial _ => m
           end) m messages.

(** The event is about the connection of observer [ws]. *)
Definition concerns (ws : nat) (ev : event) : Prop :=
  ev = Connection ws ∨ ev = Closing ws ∨ ev = Close ws.

End Server.

(** ** The client: [frontend/src/App.tsx] *)

Module Client.

(** [ChallanData]: a row of the sheet, an object. *)
Definition ChallanData : Type := list (string * json).

(** [ExtractedChallan]: the destination and the row it came from. *)
Record ExtractedChallan : Type := { mobile : string; data : ChallanData }.

(** The literals of [MessageStatus]. The type is erased at run time, and
    [status as MessageStatus] does not check the value pushed by the
    server, so the status of an item is a JavaScript value. *)
Definition idle : jsval := str "idle".
Definition sending : jsval := str "sending".
Definition sent : jsval := str "sent".
Definition delivered : jsval := str "delivered".
Definition read : jsval := str "read".
Definition error : jsval := str "error".

(** The state of the component that the dispatch and the reconciliation
    use. [messageIds] only ever receives truthy values. *)
Record state : Type := {
  extractedChallans : list ExtractedChallan;
  messageStatuses : gmap nat jsval;
  messageIds : gmap nat json
}.

(** [setMessageStatuses(prev => f(prev))] and [setMessageIds(prev => f(prev))] *)
Definition setMessageStatuses (f : gmap nat jsval → gmap nat jsval) (s : state) : state :=
  {| extractedChallans := extractedChallans s;
     messageStatuses := f (messageStatuses s);
     messageIds := messageIds s |}.

Definition setMessageIds (f : gmap nat json → gmap nat json) (s : state) : state :=
  {| extractedChallans := extractedChallans s;
     messageStatuses := messageStatuses s;
     messageIds := f (messageIds s) |}.

(** [Object.entries(o)] and [Object.values(o)] of an object whose keys are
    item indices: ascending index order. *)
Definition index_le {A} : relation (nat * A) := λ a b, (a.1 ≤ b.1)%nat.

#[global] Instance index_le_dec {A} : RelDecision (@index_le A).
Proof. intros a b. unfold index_le. apply _. Defined.

Definition Object_entries {A} (o : gmap nat A) : list (nat * A) :=
  merge_sort index_le (map_to_list o).

Definition Object_values {A} (o : gmap nat A) : list A :=
  (Object_entries o).*2.

(** *** Reconciliation: [ws.onmessage] *)

(** [Object.entries(messageIds).find(([_, id]) => id === messageId)?.[0]],
    read back with [parseInt]. *)
Definition find_index (messageIds : gmap nat json) (messageId : jsval) : option nat :=
  fst <$> List.find (λ entry, strict_eq (Some entry.2) messageId)
                    (Object_entries messageIds).

(** The [try] block of the handler. [parsed] is the outcome of
    [JSON.parse(event.data)]. The handler is re-created whenever
    [messageIds] changes, so the mapping it scans is the current one. *)
Definition onmessage_try (parsed : completion json) (s : state) : completion state :=
  match parsed with
  | Throw => Throw
  | Normal data =>
      match get (Some data) "type" with
      | Throw => Throw
      | Normal type =>
          if strict_eq type (str "status_update") then
            match get (Some data) "messageId", get (Some data) "status" with
            | Normal messageId, Normal status =>
                match find_index (messageIds s) messageId with
                | Some indexNum =>
                    Normal (setMessageStatuses (λ prev, <[indexNum := status]> prev) s)
                | None => Normal s
                end
            | _, _ => Throw
            end
          else if strict_eq type (str "initial") then
            Normal s (* console.log only *)
          else Normal s
      end
  end.

(** [ws.onmessage]: the [catch] only logs. *)
Definition onmessage (parsed : completion json) (s : state) : state :=
  match onmessage_try parsed s with
  | Normal s' => s'
  | Throw => s
  end.

(** *** Dispatch *)

(** A request to the provider's messages endpoint. *)
Inductive request : Type :=
  | TemplateMessage (to name : string)
  | TextMessage (to body : string).

(** How an [axios.post] promise settles: rejected, or resolved with a
    response whose [data] is given. *)
Inductive outcome : Type :=
  | Rejected
  | Resolved (data : jsval).

(** What the provider does with a request: the time it takes (ms) and how
    the promise settles. *)
Record answer : Type := { took : nat; settles : outcome }.

(** The provider's answers to the two requests that a send may make for one
    item; the second is consulted only if the request is made. *)
Record answers : Type := { to_template : answer; to_text : answer }.

(** What the component does to the outside, with the clock (ms) at which it
    happens: [Post] carries the index of the item it is made for. *)
Inductive effect : Type :=
  | Post (index : nat) (r : request) (start finish : nat)
  | Alert (message : string) (time : nat)
  | Confirm (message : string) (accepted : bool) (time : nat)
  | Timeout (ms start finish : nat).

Record world : Type := { ui : state; now : nat; trace : list effect }.

Definition update (f : state → state) (w : world) : world :=
  {| ui := f (ui w); now := now w; trace := trace w |}.

Definition alert (message : string) (w : world) : world :=
  {| ui := ui w; now := now w; trace := trace w ++ [Alert message (now w)] |}.

Definition confirm (message : string) (accepted : bool) (w : world) : world :=
  {| ui := ui w; now := now w; trace := trace w ++ [Confirm message accepted (now w)] |}.

(** [await axios.post(...)] *)
Definition await_post (index : nat) (r : request) (a : answer) (w : world) : world :=
  {| ui := ui w; now := now w + took a;
     trace := trace w ++ [Post index r (now w) (now w + took a)] |}.

(** [await new Promise(resolve => setTimeout(resolve, ms))]: the timer fires
    [late] ms after it is due. *)
Definition await_timeout (ms late : nat) (w : world) : world :=
  {| ui := ui w; now := now w + ms + late;
     trace := trace w ++ [Timeout ms (now w) (now w + ms + late)] |}.

(** [response.data.messages?.[0]?.id] *)
Definition message_id (data : jsval) : completion jsval :=
  match get data "messages" with
  | Throw => Throw
  | Normal messages => get_opt (get_opt_0 messages) "id"
  end.

(** The configuration read from the environment. *)
Record environment : Type := {
  PHONE_NUMBER_ID : string;
  ACCESS_TOKEN : string;
  TEMPLATE_NAME : string
}.

Section Dispatch.

Variable env : environment.

(** [formatChallanMessage] builds the text of the fallback message from
    the fields of the row, and does not throw on a row; the dispatch does not
    look into the text. *)
Variable formatChallanMessage : ChallanData → string.

(** [!PHONE_NUMBER_ID || !ACCESS_TOKEN] *)
Definition credentials_missing : bool :=
  negb (truthy (str (PHONE_NUMBER_ID env))) || negb (truthy (str (ACCESS_TOKEN env))).

(** What follows a settled [axios.post] inside its [try] block: [None]
    when control leaves the block by an exception (the promise was
    rejected, or reading the identifier threw). *)
Definition record_sent (index : nat) (settled : outcome) (w : world) : option world :=
  match settled with
  | Rejected => None
  | Resolved data =>
      match message_id data with
      | Throw => None
      | Normal messageId =>
          let w :=
            match messageId with
            | Some id =>
                if truthy messageId
                then update (setMessageIds (λ prev, <[index := id]> prev)) w
                else w
            | None => w
            end in
          Some (update (setMessageStatuses (λ prev, <[index := sent]> prev)) w)
      end
  end.

(** [sendWhatsAppMessage(mobile, challanData, index)] *)
Definition sendWhatsAppMessage (a : answers)
    (mobile : string) (challanData : ChallanData) (index : nat) (w : world) : world :=
  if credentials_missing then
    alert "Please configure WhatsApp API credentials in .env file" w
  else
    let w := update (setMessageStatuses (λ prev, <[index := sending]> prev)) w in
    let w := await_post index (TemplateMessage mobile (TEMPLATE_NAME env))
               (to_template a) w in
    match record_sent index (settles (to_template a)) w with
    | Some w' => w'
    | None =>
        let messageText := formatChallanMessage challanData in
        let w := await_post index (TextMessage mobile messageText) (to_text a) w in
        match record_sent index (settles (to_text a)) w with
        | Some w' => w'
        | None =>
            let w := update (setMessageStatuses (λ prev, <[index := error]> prev)) w in
            alert ("Failed to send message to " +:+ mobile
                     +:+ ". Check console for details.") w
        end
    end.

(** The [for] loop of [sendAllMessages], from index [i], over the
    challans not yet visited; [n] is [extractedChallans.length]. *)
Fixpoint send_loop (provider : nat → answers) (late : nat → nat)
    (n i : nat) (rest : list ExtractedChallan) (w : world) : world :=
  match rest with
  | [] => w
  | challan :: rest' =>
      let w := sendWhatsAppMessage (provider i) (mobile challan) (data challan) i w in
      let w := if (i <? n - 1)%nat then await_timeout 1000 (late i) w else w in
      send_loop provider late n (S i) rest' w
  end.

(** [sendAllMessages()]. [accepted] is the operator's answer to the
    confirmation dialog, [provider i] the provider's answers for item [i],
    [late i] the lateness of the timer armed after item [i]. *)
Definition sendAllMessages (accepted : bool) (provider : nat → answers)
    (late : nat → nat) (w : world) : world :=
  let extractedChallans := extractedChallans (ui w) in
  if Nat.eqb (length extractedChallans) 0 then alert "No challans to send" w
  else if credentials_missing then
    alert "Please configure WhatsApp API credentials in .env file" w
  else
    let w := confirm ("Send WhatsApp messages to "
                        +:+ pretty (length extractedChallans) +:+ " numbers?")
               accepted w in
    if negb accepted then w
    else send_loop provider late (length extractedChallans) 0 extractedChallans w.

(** *** The buttons *)

(** [messageStatuses[index] || 'idle'] *)
Definition status_of (s : state) (index : nat) : jsval :=
  let status := default undefined (messageStatuses s !! index) in
  if truthy status then status else idle.

(** The [disabled] attribute of the send button of an item. *)
Definition send_btn_disabled (status : jsval) : bool :=
  strict_eq status sending || strict_eq status sent
  || strict_eq status delivered || strict_eq status read.

(** The [disabled] attribute of the send-all button. *)
Definition send_all_btn_disabled (s : state) : bool :=
  existsb (λ status, strict_eq status sending) (Object_values (messageStatuses s)).

(** A click on the send button of item [index]: a disabled button, or one
    that is not rendered, does not call its handler. *)
Definition click_send (a : answers) (index : nat) (w : world) : world :=
  match extractedChallans (ui w) !! index with
  | Some challan =>
      if send_btn_disabled (status_of (ui w) index) then w
      else sendWhatsAppMessage a (mobile challan) (data challan) index w
  | None => w
  end.

(** A click on the send-all button (rendered when there are challans). *)
Definition click_send_all (accepted : bool) (provider : nat → answers)
    (late : nat → nat) (w : world) : world :=
  match extractedChallans (ui w) with
  | [] => w
  | _ :: _ =>
      if send_all_btn_disabled (ui w) then w
      else sendAllMessages accepted provider late w
  end.

End Dispatch.

(** *** Preparing a batch *)

(** The state after [handleFileUpload] has processed a file from which
    [extracted] was obtained: statuses and identifiers are emptied first. *)
Definition handleFileUpload (extracted : list ExtractedChallan) (s : state) : state :=
  {| extractedChallans := extracted; messageStatuses := ∅; messageIds := ∅ |}.

(** [handleReset()] *)
Definition handleReset (s : state) : state :=
  {| extractedChallans := []; messageStatuses := ∅; messageIds := ∅ |}.

(** *** Reading a trace *)

(** The requests made for item [index], oldest first. *)
Definition requests_for (index : nat) (t : list effect) : list request :=
  omap (λ e, match e with
             | Post i r _ _ => if Nat.eqb i index then Some r else None
             | _ => None
             end) t.

(** The requests of a trace with the item they were made for and the
    interval during which they were in flight. *)
Definition posts (t : list effect) : list (nat * nat * nat) :=
  omap (λ e, match e with
             | Post i _ start finish => Some (i, start, finish)
             | _ => None
             end) t.


(** The pacing interval of the batch loop (ms). *)
Definition pacing : nat := 1000.

(** A list of requests is paced when each one starts after the ones before
    it have finished, and at least [pacing] later when it is for another
    item. *)
Fixpoint paced (ps : list (nat * nat * nat)) : Prop :=
  match ps with
  | [] => True
  | (i, start, finish) :: rest =>
      start ≤ finish
      ∧ Forall (λ q, finish ≤ q.1.2 ∧ (q.1.1 ≠ i → finish + pacing ≤ q.1.2)) rest
      ∧ paced rest
  end.

(** The item of the latest request of a trace, forgotten once a timer has
    been awaited; [last] is the value before the trace. *)
Fixpoint last_item (last : option nat) (t : list effect) : option nat :=
  match t with
  | [] => last
  | Post i _ _ _ :: rest => last_item (Some i) rest
  | Timeout _ _ _ :: rest => last_item None rest
  | _ :: rest => last_item last rest
  end.

(** A trace is separated when, between two requests for different items, a
    timer of the pacing interval has been awaited (and no other timer is
    ever armed). *)
Fixpoint separated (last : option nat) (t : list effect) : Prop :=
  match t with
  | [] => True
  | Post i _ _ _ :: rest =>
      match last with Some j => i = j | None => True end
      ∧ separated (Some i) rest
  | Timeout ms _ _ :: rest => ms = pacing ∧ separated None rest
  | _ :: rest => separated last rest
  end.

(** What a step added to the trace, the clock not going back. *)
Definition extends (w w' : world) (added : list effect) : Prop :=
  trace w' = trace w ++ added ∧ now w ≤ now w'.

(** Requests made for items satisfying [I], all in flight between [lo] and
    [hi]. *)
Definition within (I : nat → Prop) (lo hi : nat) (ps : list (nat * nat * nat)) : Prop :=
  Forall (λ p, I p.1.1 ∧ lo ≤ p.1.2 ∧ p.2 ≤ hi) ps.

(** The identifier of the event is recorded for some item. *)
Definition mapped (messageIds : gmap nat json) (messageId : jsval) : Prop :=
  ∃ index id, messageIds !! index = Some id ∧ strict_eq (Some id) messageId = true.

(** The states in which the send button of an item is disabled. *)
Definition guarded (status : jsval) : Prop :=
  status = sending ∨ status = sent ∨ status = delivered ∨ status = read.

(** A dispatch trigger makes no request for an item whose state is
    guarded. *)
Definition respects_guard (trigger : world → world) : Prop :=
  ∀ w index, guarded (status_of (ui w) index) →
    requests_for index (trace (trigger w)) = requests_for index (trace w).

(** An operation keeps the identifiers that are set. *)
Definition keeps_identifiers (operation : world → world) : Prop :=
  ∀ w index id, messageIds (ui w) !! index = Some id →
    messageIds (ui (operation w)) !! index = Some id.

(** The provider accepts the request and returns the identifier [id]:
    [{messages: [{id}]}]. *)
Definition accepted_with (id : string) : outcome :=
  Resolved (Some (JObj [("messages", JArr [JObj [("id", JStr id)]])])).

(** *** Example inputs *)

Definition example_env : environment :=
  {| PHONE_NUMBER_ID := "1055"; ACCESS_TOKEN := "token"; TEMPLATE_NAME := "hello_world" |}.

Definition example_format (challanData : ChallanData) : string := "Traffic Challan Notification".

Definition example_challans : list ExtractedChallan :=
  [ {| mobile := "919800000001"; data := [("Name", JStr "A")] |};
    {| mobile := "919800000002"; data := [("Name", JStr "B")] |} ].

(** A batch not yet dispatched. *)
Definition fresh_world : world :=
  {| ui := {| extractedChallans := example_challans;
              messageStatuses := ∅; messageIds := ∅ |};
     now := 0; trace := [] |}.

(** The same batch after item 0 was sent with identifier ["wamid.A"]. *)
Definition sent_world : world :=
  {| ui := {| extractedChallans := example_challans;
              messageStatuses := {[ 0 := sent ]};
              messageIds := {[ 0 := JStr "wamid.A" ]} |};
     now := 0; trace := [] |}.

(** A provider that rejects every request. *)
Definition rejecting : answers :=
  {| to_template := {| took := 5; settles := Rejected |};
     to_text := {| took := 7; settles := Rejected |} |}.

(** A provider that rejects the template and accepts the text with
    identifier [id]. *)
Definition accepting_text (id : string) : answers :=
  {| to_template := {| took := 5; settles := Rejected |};
     to_text := {| took := 7; settles := accepted_with id |} |}.

(** A provider that accepts the template with identifier [id]. *)
Definition accepting (id : string) : answers :=
  {| to_template := {| took := 5; settles := accepted_with id |};
     to_text := {| took := 7; settles := Rejected |} |}.

(** *** A scenario across both processes

    A batch of three destinations: the template is accepted for the first
    (["wamid.1"]), rejected for the second, whose text is accepted
    (["wamid.2x"]), and both requests are rejected for the third. *)
Definition scenario_challans : list ExtractedChallan :=
  [ {| mobile := "919800000001"; data := [] |};
    {| mobile := "919800000002"; data := [] |};
    {| mobile := "919800000003"; data := [] |} ].

Definition scenario_provider (i : nat) : answers :=
  match i with
  | 0 => accepting "wamid.1"
  | 1 => accepting_text "wamid.2x"
  | _ => rejecting
  end.

(** The component after the batch has been dispatched. *)
Definition scenario_dispatched : world :=
  sendAllMessages example_env example_format true scenario_provider (λ _, 0)
    {| ui := {| extractedChallans := scenario_challans;
                messageStatuses := ∅; messageIds := ∅ |};
       now := 0; trace := [] |}.

(** The server receives the callback that reports ["wamid.1"] delivered,
    with the component connected as observer 1. *)
Definition scenario_server : Server.server * list Server.sent :=
  Server.run Server.string_key Server.initial_server
    [ Server.Connection 1;
      Server.WebhookPost
        (Server.envelope [Server.notification ("wamid.1", str "delivered")]) ].

(** The component after it has handled everything the server sent to it. *)
Definition scenario_reconciled : state :=
  foldl (λ s m, onmessage (Normal (Server.wire m)) s)
    (ui scenario_dispatched)
    (Server.received 1 scenario_server.2).

(** *** Intake: from the chosen file to the batch

    Strings hold UTF-8 encoded text. The operations below look only at
    ASCII characters and at the white space removed by [trim]; a byte of an
    ASCII character never occurs inside the encoding of another character,
    and lengths are taken only of ASCII text, where bytes and UTF-16 code
    units coincide. *)

Definition code (c : ascii) : nat := nat_of_ascii c.

(** [\d] *)
Definition is_digit (c : ascii) : bool :=
  Nat.leb 48 (code c) && Nat.leb (code c) 57.

(** [s.replace(/\D/g, '')] *)
Fixpoint remove_non_digits (s : string) : string :=
  match s with
  | EmptyString => EmptyString
  | String c rest =>
      if is_digit c then String c (remove_non_digits rest)
      else remove_non_digits rest
  end.

(** White space and line terminators: TAB, LF, VT, FF, CR and SP; U+00A0;
    U+1680, U+2000 to U+200A, U+2028, U+2029, U+202F, U+205F, U+3000 and
    U+FEFF. *)
Definition white_space_1 (c : ascii) : bool :=
  Nat.leb 9 (code c) && Nat.leb (code c) 13 || Nat.eqb (code c) 32.

Definition white_space_2 (c d : ascii) : bool :=
  Nat.eqb (code c) 194 && Nat.eqb (code d) 160.

Definition white_space_3 (c d e : ascii) : bool :=
  Nat.eqb (code c) 225 && Nat.eqb (code d) 154 && Nat.eqb (code e) 128
  || Nat.eqb (code c) 226 && Nat.eqb (code d) 128
     && (Nat.leb 128 (code e) && Nat.leb (code e) 138
         || Nat.eqb (code e) 168 || Nat.eqb (code e) 169 || Nat.eqb (code e) 175)
  || Nat.eqb (code c) 226 && Nat.eqb (code d) 129 && Nat.eqb (code e) 159
  || Nat.eqb (code c) 227 && Nat.eqb (code d) 128 && Nat.eqb (code e) 128
  || Nat.eqb (code c) 239 && Nat.eqb (code d) 187 && Nat.eqb (code e) 191.

(** [s.trimStart()] *)
Fixpoint trimStart (s : string) : string :=
  match s with
  | EmptyString => EmptyString
  | String c rest =>
      if white_space_1 c then trimStart rest
      else
        match rest with
        | EmptyString => s
        | String d rest1 =>
            if white_space_2 c d then trimStart rest1
            else
              match rest1 with
              | EmptyString => s
              | String e rest2 =>
                  if white_space_3 c d e then trimStart rest2 else s
              end
        end
  end.

(** [s.trimEnd()]: the text is cut where only white space follows. *)
Fixpoint trimEnd (s : string) : string :=
  match s with
  | EmptyString => EmptyString
  | String c rest =>
      if String.eqb (trimStart s) EmptyString then EmptyString
      else String c (trimEnd rest)
  end.

(** [s.trim()] *)
Definition trim (s : string) : string := trimEnd (trimStart s).

(** [s.startsWith(prefix)] *)
Definition startsWith (s prefix : string) : bool := String.prefix prefix s.

(** [s.slice(start)] and [s.substring(start)] for a [start] that is not
    negative. *)
Fixpoint slice (s : string) (start : nat) {struct start} : string :=
  match start, s with
  | S start', String _ rest => slice rest start'
  | _, _ => s
  end.

(** Every character of the text is a decimal digit. *)
Fixpoint all_digits (s : string) : bool :=
  match s with
  | EmptyString => true
  | String c rest => is_digit c && all_digits rest
  end.

(** *** Plain objects with string keys

    An object is kept as the list of its own properties in the order of
    their creation, each key once. *)

(** The number written by a text of decimal digits. *)
Fixpoint decimal (acc : N) (s : string) : N :=
  match s with
  | EmptyString => acc
  | String c rest => decimal (acc * 10 + N.of_nat (code c - 48)) rest
  end.

(** The key is an array index: the canonical decimal form of an integer
    below 2^32 - 1. *)
Definition array_index (key : string) : option N :=
  match key with
  | EmptyString => None
  | String c rest =>
      if all_digits key && (negb (Ascii.eqb c "0") || String.eqb rest EmptyString)
      then if (decimal 0 key <? 2 ^ 32 - 1)%N then Some (decimal 0 key) else None
      else None
  end.

(** [o[key] = value] on an object created by [{}]: an existing property
    keeps its place, a new one comes last; the key [__proto__] reaches the
    setter of [Object.prototype], which creates no property. *)
Fixpoint assign {A} (key : string) (value : A) (o : list (string * A)) : list (string * A) :=
  match o with
  | [] => [(key, value)]
  | (k, v) :: rest =>
      if String.eqb k key then (k, value) :: rest
      else (k, v) :: assign key value rest
  end.

Definition set_property {A} (key : string) (value : A) (o : list (string * A))
    : list (string * A) :=
  if String.eqb key "__proto__" then o else assign key value o.

Definition by_index {A} : relation (N * A) := λ a b, (a.1 ≤ b.1)%N.

#[global] Instance by_index_dec {A} : RelDecision (@by_index A).
Proof. intros a b. unfold by_index. apply _. Defined.

(** The properties whose key is an array index, with the index, and the
    other ones, both in the order of creation. *)
Definition indexed {A} (o : list (string * A)) : list (N * A) :=
  omap (λ kv, match array_index kv.1 with
              | Some n => Some (n, kv.2)
              | None => None
              end) o.

Definition named {A} (o : list (string * A)) : list (string * A) :=
  List.filter (λ kv, match array_index kv.1 with
                     | Some _ => false
                     | None => true
                     end) o.

(** [Object.values(o)]: the properties whose key is an array index come
    first, by ascending index; the other ones follow in the order of their
    creation. *)
Definition Object_values_of {A} (o : list (string * A)) : list A :=
  (merge_sort by_index (indexed o)).*2 ++ (named o).*2.

Section Intake.

(** [String(v)], the conversion of a cell to a string, is a primitive of
    the runtime; all that is used of it is that it leaves strings alone. *)
Variable ToString : json → string.

(** The body of the inner [forEach] of [extractMobileNumbers]: the challan
    pushed for a row, if one is. *)
Definition extract_row (row : ChallanData) : option ExtractedChallan :=
  match own_property "Violator Contact" row with
  | None => None
  | Some contact =>
      if truthy (Some contact) then
        let mobile := trim (ToString contact) in
        let mobile :=
          if startsWith mobile "+"
          then "+" +:+ remove_non_digits (slice mobile 1)
          else remove_non_digits mobile in
        if Nat.leb 10 (String.length mobile) then
          let mobile :=
            if negb (startsWith mobile "+") && Nat.eqb (String.length mobile) 10
            then "91" +:+ mobile
            else if negb (startsWith mobile "+") && Nat.ltb 10 (String.length mobile)
            then "+" +:+ mobile
            else if negb (startsWith mobile "+")
            then "+91" +:+ mobile
            else mobile in
          Some {| mobile := mobile; data := row |}
        else None
      else None
  end.

(** [extractMobileNumbers(data)]; [data] maps the name of a sheet to its
    rows. *)
Definition extractMobileNumbers (data : list (string * list ChallanData))
    : list ExtractedChallan :=
  foldl (λ challans sheetData,
           foldl (λ challans row,
                    match extract_row row with
                    | Some challan => challans ++ [challan]
                    | None => challans
                    end) challans sheetData)
        [] (Object_values_of data).

End Intake.

(** What [XLSX.read] returns, as far as it is used: the names of the
    sheets in the order of the file, and for each name the rows that
    [XLSX.utils.sheet_to_json(workbook.Sheets[name])] gives. *)
Record workbook : Type := {
  SheetNames : list string;
  Sheets : string → list ChallanData
}.

(** [convertedData], filled by [workbook.SheetNames.forEach]. *)
Definition convertedData (wb : workbook) : list (string * list ChallanData) :=
  foldl (λ o sheetName, set_property sheetName (Sheets wb sheetName) o)
        [] (SheetNames wb).

(** [s.lastIndexOf(c)], scanning from position [i] of the whole string; -1
    when [c] does not occur. *)
Fixpoint lastIndexOf_from (s : string) (c : ascii) (i : Z) : Z :=
  match s with
  | EmptyString => (-1)%Z
  | String a rest =>
      let later := lastIndexOf_from rest c (i + 1) in
      if (0 <=? later)%Z then later
      else if Ascii.eqb a c then i else (-1)%Z
  end.

Definition lastIndexOf (s : string) (c : ascii) : Z := lastIndexOf_from s c 0.

(** [s.substring(start)]: a negative [start] counts as 0. *)
Definition substring (s : string) (start : Z) : string :=
  slice s (Z.to_nat (Z.max 0 start)).

(** [s.toLowerCase()] on the letters A to Z. Other characters are kept as
    they are: the result is only compared with the four extensions, and no
    character outside A to Z lower-cases to one of their letters. *)
Definition lower (c : ascii) : ascii :=
  if Nat.leb 65 (code c) && Nat.leb (code c) 90 then ascii_of_nat (code c + 32) else c.

Fixpoint toLowerCase (s : string) : string :=
  match s with
  | EmptyString => EmptyString
  | String c rest => String (lower c) (toLowerCase rest)
  end.

Definition validExtensions : list string := [".xlsx"; ".xls"; ".xlsm"; ".csv"].

(** [file.name.substring(file.name.lastIndexOf('.')).toLowerCase()] *)
Definition fileExtension (name : string) : string :=
  toLowerCase (substring name (lastIndexOf name "."%char)).

(** [validExtensions.includes(fileExtension)] *)
Definition valid_file (name : string) : bool :=
  existsb (String.eqb (fileExtension name)) validExtensions.

(** The letters of the text occur in it. *)
Fixpoint occurs (c : ascii) (s : string) : bool :=
  match s with
  | EmptyString => false
  | String a rest => Ascii.eqb a c || occurs c rest
  end.

(** *** The page: the component with the fields of its form *)

Module Page.

Record page : Type := {
  app : state;
  fileName : option string;
  isProcessing : bool;
  showDetails : bool
}.

(** The page as it is first rendered. *)
Definition initial : page :=
  {| app := {| extractedChallans := []; messageStatuses := ∅; messageIds := ∅ |};
     fileName := None; isProcessing := false; showDetails := false |}.

Definition quote : string := String (ascii_of_nat 34) EmptyString.
Definition newline : string := String (ascii_of_nat 10) EmptyString.

Section Upload.

Variable ToString : json → string.

(** [handleFileUpload(event)] runs in two parts, and whatever else is due
    runs between them. The first part, up to [await file.arrayBuffer()],
    for a file whose name passed the check. *)
Definition handleFileUpload_start (name : string) (p : page) : page :=
  {| app := {| extractedChallans := []; messageStatuses := ∅; messageIds := ∅ |};
     fileName := Some name; isProcessing := true; showDetails := showDetails p |}.

(** The second part, from the moment the file has been read: [read] is
    the outcome of [file.arrayBuffer] and [XLSX.read] with the conversion of
    the sheets, a workbook or an exception; [q] is the page as it is then.
    The result is the page and the alert shown. *)
Definition handleFileUpload_resume (read : completion workbook) (q : page)
    : page * list string :=
  match read with
  | Normal wb =>
      let extracted := extractMobileNumbers ToString (convertedData wb) in
      let loaded :=
        {| extractedChallans := extracted;
           messageStatuses := messageStatuses (app q);
           messageIds := messageIds (app q) |} in
      if Nat.ltb 0 (length extracted) then
        ({| app := loaded; fileName := fileName q; isProcessing := false;
            showDetails := true |},
         ["Excel file converted successfully!" +:+ newline
            +:+ "Found " +:+ pretty (length extracted)
            +:+ " challan(s) with mobile numbers." +:+ newline
            +:+ "Check the console for JSON data."])
      else
        ({| app := loaded; fileName := fileName q; isProcessing := false;
            showDetails := showDetails q |},
         ["Excel file converted successfully, but no mobile numbers found in "
            +:+ quote +:+ "Violator Contact" +:+ quote +:+ " column."])
  | Throw =>
      ({| app := app q; fileName := None; isProcessing := false;
          showDetails := showDetails q |},
       ["Error processing Excel file. Please try again."])
  end.

(** [handleFileUpload(event)] when nothing else runs while the file is
    read. [file] is the name of [event.target.files?.[0]], if there is
    one. *)
Definition handleFileUpload (file : option string) (read : completion workbook)
    (p : page) : page * list string :=
  match file with
  | None => (p, [])
  | Some name =>
      if negb (valid_file name) then
        (p, ["Please upload a valid Excel file (.xlsx, .xls, .xlsm, or .csv)"])
      else handleFileUpload_resume read (handleFileUpload_start name p)
  end.

End Upload.

(** The page after another handler has brought the component to [s]. *)
Definition with_app (s : state) (p : page) : page :=
  {| app := s; fileName := fileName p; isProcessing := isProcessing p;
     showDetails := showDetails p |}.

(** [handleReset(event)] *)
Definition handleReset (p : page) : page :=
  {| app := {| extractedChallans := []; messageStatuses := ∅; messageIds := ∅ |};
     fileName := None; isProcessing := false; showDetails := false |}.

(** The two panels below the upload area: the results, and the notice that
    no number was found. *)
Definition results_shown (p : page) : bool :=
  showDetails p && Nat.ltb 0 (length (extractedChallans (app p))).

Definition no_results_shown (p : page) : bool :=
  showDetails p && Nat.eqb (length (extractedChallans (app p))) 0.

End Page.

(** *** The status shown and the report *)

(** [getStatusLabel(status)] *)
Definition getStatusLabel (status : jsval) : string :=
  if strict_eq status sending then "Sending"
  else if strict_eq status sent then "Sent"
  else if strict_eq status delivered then "Delivered"
  else if strict_eq status read then "Read"
  else if strict_eq status error then "Failed"
  else "Not Sent".

(** The text inside the send button of an item: the pieces rendered by
    [{status === ... && '...'}]. *)
Definition send_btn_text (status : jsval) : list string :=
  flat_map (λ labelled : jsval * string,
              if strict_eq status labelled.1 then [labelled.2] else [])
    [ (idle, "Send"); (sending, "Sending..."); (sent, "Sent");
      (delivered, "Delivered"); (read, "Read"); (error, "Retry") ].




Section Report.

Variable ToString : json → string.




End Report.

(** How far a status has come: 1 for sent, 2 for delivered, 3 for read, 0
    for anything else. *)
Definition progress (status : jsval) : nat :=
  if strict_eq status read then 3
  else if strict_eq status delivered then 2
  else if strict_eq status sent then 1
  else 0.

(** *** Outcomes of a send *)

(** The settled request lets the [try] block that awaited it run to its
    end: it was resolved, and the response has a body to read the identifier
    from. *)
Definition completes (settled : outcome) : bool :=
  match settled with
  | Rejected => false
  | Resolved data =>
      match message_id data with Normal _ => true | Throw => false end
  end.

(** One of the two requests of a send completes. *)
Definition succeeds (a : answers) : bool :=
  completes (settles (to_template a)) || completes (settles (to_text a)).

(** A template literal can print the value: [`${v}`] throws for an object
    with an own property [toString] (which, coming from JSON, is no
    function), and for an array that holds such an object; it prints
    everything else. *)
Fixpoint printable (v : json) : bool :=
  match v with
  | JArr items =>
      (fix all (l : list json) : bool :=
         match l with
         | [] => true
         | item :: rest => printable item && all rest
         end) items
  | JObj fields =>
      match own_property "toString" fields with
      | Some _ => false
      | None => true
      end
  | _ => true
  end.

(** The identifier that the settled request carries, if it carries one,
    can be printed by the log line that follows its recording. *)
Definition prints_identifier (settled : outcome) : Prop :=
  ∀ data id, settled = Resolved data → message_id data = Normal (Some id) →
    printable id = true.

(** *** A send among other handlers

    While a request or a timer is awaited, other handlers run: pushed
    messages, clicks, the continuations of other sends, an upload. What they
    do to the state is a function of the state. *)
Section Among.

Variable env : environment.
Variable formatChallanMessage : ChallanData → string.

(** [sendWhatsAppMessage]; [meanwhile1] and [meanwhile2] are what the
    other handlers did while the templated and the free-text request were
    awaited. *)
Definition sendWhatsAppMessage_among (meanwhile1 meanwhile2 : state → state)
    (a : answers) (mobile : string) (challanData : ChallanData) (index : nat)
    (w : world) : world :=
  if credentials_missing env then
    alert "Please configure WhatsApp API credentials in .env file" w
  else
    let w := update (setMessageStatuses (λ prev, <[index := sending]> prev)) w in
    let w := await_post index (TemplateMessage mobile (TEMPLATE_NAME env))
               (to_template a) w in
    let w := update meanwhile1 w in
    match record_sent index (settles (to_template a)) w with
    | Some w' => w'
    | None =>
        let messageText := formatChallanMessage challanData in
        let w := await_post index (TextMessage mobile messageText) (to_text a) w in
        let w := update meanwhile2 w in
        match record_sent index (settles (to_text a)) w with
        | Some w' => w'
        | None =>
            let w := update (setMessageStatuses (λ prev, <[index := error]> prev)) w in
            alert ("Failed to send message to " +:+ mobile
                     +:+ ". Check console for details.") w
        end
    end.

(** The loop of [sendAllMessages]; [meanwhile i 0] and [meanwhile i 1] are
    what the other handlers did during the two requests of item [i], and
    [meanwhile i 2] what they did once the send of item [i] had ended and
    before the loop went on: during the pause or, after the last item,
    before the loop was resumed to end. *)
Fixpoint send_loop_among (meanwhile : nat → nat → state → state)
    (provider : nat → answers) (late : nat → nat)
    (n i : nat) (rest : list ExtractedChallan) (w : world) : world :=
  match rest with
  | [] => w
  | challan :: rest' =>
      let w := sendWhatsAppMessage_among (meanwhile i 0) (meanwhile i 1)
                 (provider i) (mobile challan) (data challan) i w in
      let w := if (i <? n - 1)%nat then await_timeout 1000 (late i) w else w in
      let w := update (meanwhile i 2) w in
      send_loop_among meanwhile provider late n (S i) rest' w
  end.

(** [sendAllMessages()] among other handlers. *)
Definition sendAllMessages_among (meanwhile : nat → nat → state → state)
    (accepted : bool) (provider : nat → answers) (late : nat → nat) (w : world)
    : world :=
  let extractedChallans := extractedChallans (ui w) in
  if Nat.eqb (length extractedChallans) 0 then alert "No challans to send" w
  else if credentials_missing env then
    alert "Please configure WhatsApp API credentials in .env file" w
  else
    let w := confirm ("Send WhatsApp messages to "
                        +:+ pretty (length extractedChallans) +:+ " numbers?")
               accepted w in
    if negb accepted then w
    else send_loop_among meanwhile provider late (length extractedChallans) 0
           extractedChallans w.

End Among.

(** No other handler runs. *)
Definition undisturbed : nat → nat → state → state := λ _ _ s, s.

(** From item [i] on, once its send has ended, no other handler writes the
    status of item [i] before the batch of [n] items ends. *)
Definition leaves_alone (meanwhile : nat → nat → state → state) (n i : nat) : Prop :=
  ∀ j k s, j < n → i < j ∨ (j = i ∧ k = 2) →
    messageStatuses (meanwhile j k s) !! i = messageStatuses s !! i.

(** The component handles the messages pushed to it, oldest first. *)
Definition handle_all (messages : list Server.ws_message) (s : state) : state :=
  foldl (λ s m, onmessage (Normal (Server.wire m)) s) s messages.

(** The status of the last write to [key] in a sequence of writes. *)
Definition last_write (key : jsval) (writes : list (jsval * jsval)) : option jsval :=
  snd <$> last (List.filter (λ w, strict_eq w.1 key) writes).

(** The identifier is recorded for [index] and for no item before it. *)
Definition tracks (messageIds : gmap nat json) (index : nat) (id : string) : Prop :=
  messageIds !! index = Some (JStr id)
  ∧ ∀ lower id', lower < index → messageIds !! lower = Some id' → id' ≠ JStr id.

End Client.

(** * Properties *)

(** ** JavaScript values *)

Lemma strict_eq_str_r (s : string) (v : jsval) :
  strict_eq v (str s) = true ↔ v = str s.
Proof.
  unfold str. destruct v as [[| | |t| |]|]; simpl; try (split; [discriminate|congruence]).
  rewrite String.eqb_eq. split; congruence.
Qed.

Lemma strict_eq_str (s t : string) :
  strict_eq (str s) (str t) = bool_decide (s = t).
Proof.
  simpl. case_bool_decide as H.
  - by apply String.eqb_eq.
  - by apply String.eqb_neq.
Qed.

(** ** The status store *)

Import Server.

Lemma Map_set_keys_present key value (m : Map) :
  Map_has key m = true → (Map_set key value m).*1 = m.*1.
Proof.
  induction m as [|[k v] rest IH]; simpl; [done|].
  destruct (strict_eq k key) eqn:E; simpl; [done|].
  intros H. f_equal. by apply IH.
Qed.

Lemma Map_set_keys_absent key value (m : Map) :
  Map_has key m = false → (Map_set key value m).*1 = m.*1 ++ [key].
Proof.
  induction m as [|[k v] rest IH]; simpl; [done|].
  destruct (strict_eq k key) eqn:E; simpl; [done|].
  intros H. f_equal. by apply IH.
Qed.

Lemma Map_has_str_elem (s : string) (ks : list string) (m : Map) :
  m.*1 = str <$> ks → Map_has (str s) m = true ↔ s ∈ ks.
Proof.
  revert ks. induction m as [|[k v] rest IH]; intros [|k0 ks] Hk; simpl in Hk |- *;
    try done.
  - split; [done|]. by intros ?%elem_of_nil.
  - injection Hk as Hk0 Hrest. subst k. change (rest.*1 = str <$> ks) in Hrest.
    rewrite strict_eq_str, elem_of_cons.
    rewrite orb_true_iff, (IH _ Hrest), bool_decide_eq_true.
    split; (intros [?|?]; [left; done | right; done]).
Qed.

Lemma Map_set_string_keyed (s : string) value (m : Map) :
  string_keyed m → string_keyed (Map_set (str s) value m).
Proof.
  intros (ks & Hk & Hnd). destruct (Map_has (str s) m) eqn:E.
  - exists ks. by rewrite Map_set_keys_present.
  - exists (ks ++ [s]). rewrite Map_set_keys_absent by done.
    rewrite Hk, fmap_app. split; [done|].
    apply NoDup_app. split_and!; [done| |apply NoDup_singleton].
    intros x Hx ->%list_elem_of_singleton.
    apply (Map_has_str_elem _ _ _ Hk) in Hx. congruence.
Qed.

Lemma record_all_string_keyed writes (m : Map) :
  string_keyed m → string_keyed (record_all writes m).
Proof.
  revert m. induction writes as [|w writes IH]; intros m Hm; simpl; [done|].
  apply IH. by apply Map_set_string_keyed.
Qed.

Lemma Map_new_string_keyed : string_keyed Map_new.
Proof. exists []. split; [done|constructor]. Qed.

Lemma record_all_snoc writes w (m : Map) :
  record_all (writes ++ [w]) m = recordStatus w.1 w.2 (record_all writes m).
Proof. unfold record_all. by rewrite foldl_app. Qed.

Lemma last_written_nil id : last_written id [] = None.
Proof. done. Qed.

Lemma last_written_snoc id writes (w : string * jsval) :
  last_written id (writes ++ [w])
  = if decide (w.1 = id) then Some w.2 else last_written id writes.
Proof.
  unfold last_written. rewrite filter_app.
  case_decide as Hw.
  - rewrite filter_cons_True by done. by rewrite filter_nil, last_snoc.
  - rewrite filter_cons_False by done. by rewrite filter_nil, app_nil_r.
Qed.

Lemma written_snoc writes (w : string * jsval) :
  written (writes ++ [w]) = {[ w.1 ]} ∪ written writes.
Proof. unfold written. rewrite fmap_app, list_to_set_app_L. simpl. set_solver. Qed.

Lemma last_written_is_Some id writes :
  is_Some (last_written id writes) ↔ id ∈ written writes.
Proof.
  induction writes as [|w writes IH] using rev_ind.
  - rewrite last_written_nil. unfold written. simpl.
    split; [by intros [? ?]|set_solver].
  - rewrite last_written_snoc, written_snoc. case_decide as Hw.
    + split; [set_solver|eauto].
    + rewrite IH. set_solver.
Qed.

Lemma Map_get_Map_set_eq (s : string) v (m : Map) :
  Map_get (str s) (Map_set (str s) v m) = v.
Proof.
  induction m as [|[k v'] rest IH]; simpl.
  - by rewrite String.eqb_refl.
  - destruct (strict_eq k (str s)) eqn:E; simpl; rewrite E; [done|apply IH].
Qed.

Section StoreFacts.

Variable ToPropertyKey : jsval → string.
Hypothesis ToPropertyKey_string : ∀ s, ToPropertyKey (str s) = s.

Lemma fromEntries_insert_absent (k : string) v (m : Map) (acc : object) :
  k ∉ ToPropertyKey <$> m.*1 →
  foldl (λ o kv, <[ToPropertyKey kv.1 := kv.2]> o) (<[k := v]> acc) m
  = <[k := v]> (foldl (λ o kv, <[ToPropertyKey kv.1 := kv.2]> o) acc m).
Proof.
  revert acc. induction m as [|[k' v'] rest IH]; intros acc Hk; simpl in *; [done|].
  apply not_elem_of_cons in Hk as [Hne Hk].
  rewrite <- IH by done. f_equal. by apply insert_insert_ne.
Qed.

Lemma fromEntries_Map_set (s : string) v (m : Map) (acc : object) :
  string_keyed m →
  foldl (λ o kv, <[ToPropertyKey kv.1 := kv.2]> o) acc (Map_set (str s) v m)
  = <[s := v]> (foldl (λ o kv, <[ToPropertyKey kv.1 := kv.2]> o) acc m).
Proof.
  intros (ks & Hk & Hnd). revert ks acc Hk Hnd.
  induction m as [|[k' v'] rest IH]; intros ks acc Hk Hnd; simpl.
  - by rewrite ToPropertyKey_string.
  - destruct ks as [|k0 ks]; simpl in Hk; [discriminate|].
    injection Hk as Hk' Hrest. subst k'. change (rest.*1 = str <$> ks) in Hrest.
    apply NoDup_cons in Hnd as [Hk0 Hnd].
    rewrite strict_eq_str. case_bool_decide as Heq; simpl.
    + subst k0. rewrite ToPropertyKey_string.
      assert (s ∉ ToPropertyKey <$> rest.*1) as Hs.
      { rewrite Hrest, <- list_fmap_compose.
        intros (y & Hy & Hin)%list_elem_of_fmap. simpl in Hy.
        rewrite ToPropertyKey_string in Hy. by subst y. }
      rewrite !fromEntries_insert_absent by done.
      by rewrite insert_insert_eq.
    + by apply (IH ks).
Qed.

Lemma Object_fromEntries_Map_set (s : string) v (m : Map) :
  string_keyed m →
  Object_fromEntries ToPropertyKey (Map_set (str s) v m)
  = <[s := v]> (Object_fromEntries ToPropertyKey m).
Proof. apply fromEntries_Map_set. Qed.

(** The object built from the store holds, for each identifier, the state
    of its last write. *)
Lemma Object_fromEntries_record_all writes id :
  Object_fromEntries ToPropertyKey (record_all writes Map_new) !! id
  = last_written id writes.
Proof.
  induction writes as [|w writes IH] using rev_ind; [done|].
  rewrite record_all_snoc, last_written_snoc. unfold recordStatus.
  rewrite Object_fromEntries_Map_set
    by (apply record_all_string_keyed, Map_new_string_keyed).
  rewrite lookup_insert. case_decide; [done|apply IH].
Qed.

End StoreFacts.

(** ** The webhook receiver *)

Section WebhookFacts.
Import Server.

Variable clients : list ws_client.




(** *** Envelopes with missing fields *)

Lemma for_each_silent (callback : json → stmt unit) (P : json → Prop) items e :
  (∀ item e, P item → callback item e = (Normal tt, e)) →
  Forall P items →
  for_each callback items e = (Normal tt, e).
Proof.
  intros Hcb Hall. induction Hall as [|item items Hitem _ IH]; [done|].
  cbn [for_each]. unfold bind. by rewrite Hcb.
Qed.

Lemma for_each_on_message items e :
  for_each on_message items e = (Normal tt, e).
Proof.
  apply (for_each_silent _ (λ _, True)); [done|]. by apply Forall_true.
Qed.

Lemma on_change_silent change e :
  change_without_statuses change → on_change clients change e = (Normal tt, e).
Proof.
  intros [fields Hfield|fields value Hfield Hvalue Hstatuses Hmessages];
    unfold on_change, bind, eval; cbn [get].
  - destruct (strict_eq _ _) eqn:E; [|done].
    by apply strict_eq_str_r in E.
  - rewrite Hfield, Hvalue. cbn [strict_eq str get]. rewrite String.eqb_refl.
    assert (when (own_property "statuses" value)
              (forEach (own_property "statuses" value) (on_status clients)) e
            = (Normal tt, e)) as ->.
    { destruct Hstatuses as [[-> | ->] | ->]; done. }
    destruct Hmessages as [[-> | ->] | [items ->]]; try done.
    unfold when. cbn [truthy forEach]. apply for_each_on_message.
Qed.

Lemma on_entry_silent entry e :
  entry_without_statuses entry → on_entry clients entry e = (Normal tt, e).
Proof.
  intros [fields Hchanges|fields changes Hchanges Hall];
    unfold on_entry, bind, eval; cbn [get].
  - by destruct Hchanges as [-> | ->].
  - rewrite Hchanges. cbn [forEach_opt forEach].
    apply (for_each_silent _ change_without_statuses); [|done].
    intros. by apply on_change_silent.
Qed.

Lemma webhook_post_silent body e :
  recognised_without_statuses body →
  webhook_post clients body e = ({| code := 200; text := "EVENT_RECEIVED" |}, e).
Proof.
  intros [fields Hobject Hentry|fields entries Hobject Hentry Hall];
    unfold webhook_post, webhook_try, bind, eval; cbn [get];
    rewrite Hobject; cbn [strict_eq str]; rewrite String.eqb_refl.
  - by destruct Hentry as [-> | ->].
  - rewrite Hentry. cbn [forEach_opt forEach].
    rewrite (for_each_silent _ entry_without_statuses); [done| |done].
    intros. by apply on_entry_silent.
Qed.

Lemma webhook_post_unrecognised body object e :
  get body "object" = Normal object →
  object ≠ str "whatsapp_business_account" →
  webhook_post clients body e = ({| code := 404; text := "Not Found" |}, e).
Proof.
  intros Hget Hne. unfold webhook_post, webhook_try, bind, eval. rewrite Hget.
  destruct (strict_eq _ _) eqn:E; [|done].
  by apply strict_eq_str_r in E.
Qed.

Lemma webhook_post_catch body e e' :
  webhook_try clients body e = (Throw, e') →
  webhook_post clients body e
  = ({| code := 500; text := "Internal Server Error" |}, e').
Proof. intros H. unfold webhook_post. by rewrite H. Qed.

Lemma webhook_post_responses body e :
  (webhook_post clients body e).1
    ∈ [ {| code := 200; text := "EVENT_RECEIVED" |};
        {| code := 404; text := "Not Found" |};
        {| code := 500; text := "Internal Server Error" |} ].
Proof.
  unfold webhook_post, webhook_try, bind, eval.
  destruct (get body "object") as [object|]; [|set_solver].
  destruct (strict_eq _ _); [|set_solver].
  destruct (get body "entry") as [entry|]; [|set_solver].
  destruct (forEach_opt _ _ _) as [[[]|] e']; set_solver.
Qed.

End WebhookFacts.

(** ** The broadcast channel *)

Section BroadcastFacts.
Import Server.

Lemma elem_of_broadcast clients messageId status ws m :
  (ws, m) ∈ broadcastStatusUpdate clients messageId status
  ↔ m = StatusUpdate messageId status ∧ open_observer clients ws.
Proof.
  unfold broadcastStatusUpdate, open_observer.
  induction clients as [|c clients IH]; cbn [flat_map].
  - split; [by intros ?%elem_of_nil|]. intros (_ & c & Hc%elem_of_nil & _). done.
  - rewrite elem_of_app, IH. clear IH. split.
    + intros [Hc|(-> & c' & Hc' & Hh & Ho)].
      * destruct (Nat.eqb_spec (readyState c) OPEN) as [Ho|Ho];
          [|by apply elem_of_nil in Hc].
        apply list_elem_of_singleton in Hc. injection Hc as -> ->.
        split; [done|]. exists c. split_and!; [left|done|done].
      * split; [done|]. exists c'. split_and!; [by right|done|done].
    + intros (-> & c' & Hc' & Hh & Ho). apply elem_of_cons in Hc' as [->|Hc'].
      * left. rewrite Ho, Nat.eqb_refl, <- Hh. left.
      * right. split; [done|]. by exists c'.
Qed.

Lemma received_app ws (out1 out2 : list sent) :
  received ws (out1 ++ out2) = received ws out1 ++ received ws out2.
Proof. apply omap_app. Qed.

Lemma received_none ws (out : list sent) :
  (∀ m, (ws, m) ∉ out) → received ws out = [].
Proof.
  induction out as [|[ws' m] out IH]; intros Hnot; [done|].
  unfold received. simpl. destruct (Nat.eqb_spec ws' ws) as [->|Hne].
  - destruct (Hnot m). left.
  - apply IH. intros m' Hm'. apply (Hnot m'). by right.
Qed.


(** *** What a handler may push *)

Lemma pushes_refl clients e : pushes_to_open clients e e.
Proof. exists []. by rewrite app_nil_r. Qed.

Lemma pushes_trans clients e1 e2 e3 :
  pushes_to_open clients e1 e2 → pushes_to_open clients e2 e3 →
  pushes_to_open clients e1 e3.
Proof.
  intros (x & Hx & Px) (y & Hy & Py). exists (x ++ y).
  rewrite Hy, Hx, app_assoc. split; [done|]. by apply Forall_app.
Qed.

Lemma pushing_ret {A} clients (a : A) : pushing clients (ret a).
Proof. intros e. apply pushes_refl. Qed.

Lemma pushing_throw {A} clients : pushing clients (@throw A).
Proof. intros e. apply pushes_refl. Qed.

Lemma pushing_eval {A} clients (c : completion A) : pushing clients (eval c).
Proof. intros e. apply pushes_refl. Qed.

Lemma pushing_bind {A B} clients (c : stmt A) (k : A → stmt B) :
  pushing clients c → (∀ a, pushing clients (k a)) → pushing clients (bind c k).
Proof.
  intros Hc Hk e. unfold bind. specialize (Hc e).
  destruct (c e) as [[a|] e1]; [|done].
  eapply pushes_trans; [exact Hc|apply Hk].
Qed.

Lemma pushing_for_each clients (callback : json → stmt unit) items :
  (∀ item, pushing clients (callback item)) →
  pushing clients (for_each callback items).
Proof.
  intros Hcb. induction items as [|item items IH]; cbn [for_each].
  - apply pushing_ret.
  - apply pushing_bind; [apply Hcb|done].
Qed.

Lemma pushing_forEach clients v (callback : json → stmt unit) :
  (∀ item, pushing clients (callback item)) →
  pushing clients (forEach v callback).
Proof.
  intros Hcb. destruct v as [[| | | |items|]|]; try apply pushing_throw.
  by apply pushing_for_each.
Qed.

Lemma pushing_forEach_opt clients v (callback : json → stmt unit) :
  (∀ item, pushing clients (callback item)) →
  pushing clients (forEach_opt v callback).
Proof.
  intros Hcb. destruct v as [[| | | |items|]|];
    try apply pushing_ret; by apply pushing_forEach.
Qed.

Lemma pushing_when clients v (body : stmt unit) :
  pushing clients body → pushing clients (when v body).
Proof. intros Hb. unfold when. destruct (truthy v); [done|apply pushing_ret]. Qed.

Lemma pushing_on_status clients status : pushing clients (on_status clients status).
Proof.
  unfold on_status. apply pushing_bind; [apply pushing_eval|]. intros messageId.
  apply pushing_bind; [apply pushing_eval|]. intros statusType e.
  exists (broadcastStatusUpdate clients messageId statusType). split; [done|].
  apply Forall_forall. intros [ws m] (-> & Hopen)%elem_of_broadcast. eauto.
Qed.

Lemma pushing_on_change clients change : pushing clients (on_change clients change).
Proof.
  unfold on_change. apply pushing_bind; [apply pushing_eval|]. intros field.
  destruct (strict_eq _ _); [|apply pushing_ret].
  apply pushing_bind; [apply pushing_eval|]. intros value.
  apply pushing_bind; [apply pushing_eval|]. intros statuses.
  apply pushing_bind.
  { apply pushing_when, pushing_forEach, pushing_on_status. }
  intros _. apply pushing_bind; [apply pushing_eval|]. intros messages.
  apply pushing_when, pushing_forEach. intros item. apply pushing_ret.
Qed.

Lemma pushing_webhook_try clients body : pushing clients (webhook_try clients body).
Proof.
  unfold webhook_try. apply pushing_bind; [apply pushing_eval|]. intros object.
  destruct (strict_eq _ _); [|apply pushing_ret].
  apply pushing_bind; [apply pushing_eval|]. intros entry.
  apply pushing_bind; [|intros; apply pushing_ret].
  apply pushing_forEach_opt. intros item. unfold on_entry.
  apply pushing_bind; [apply pushing_eval|]. intros changes.
  apply pushing_forEach_opt, pushing_on_change.
Qed.

Lemma webhook_post_pushes clients body e :
  pushes_to_open clients e (webhook_post clients body e).2.
Proof.
  unfold webhook_post. pose proof (pushing_webhook_try clients body e) as H.
  by destruct (webhook_try clients body e) as [[r|] e'].
Qed.

End BroadcastFacts.

(** ** Runs of the server *)

Section RunFacts.
Import Server.

Variable ToPropertyKey : jsval → string.

Lemma step_WebhookPost_clients s body :
  wss_clients (step ToPropertyKey s (WebhookPost body)).1 = wss_clients s.
Proof. cbn [step]. by destruct (webhook_post _ _ _). Qed.

Lemma step_WebhookPost_pushes s body :
  Forall (λ sm : sent, open_observer (wss_clients s) sm.1
            ∧ ∃ id st, sm.2 = StatusUpdate id st)
    (step ToPropertyKey s (WebhookPost body)).2.
Proof.
  cbn [step].
  pose proof (webhook_post_pushes (wss_clients s) body
                {| store := messageStatuses s; outbox := [] |}) as (x & Hx & Px).
  destruct (webhook_post _ _ _) as [r e]. cbn in *. by rewrite Hx.
Qed.


Lemma step_stays_closed s ws ev :
  ev ≠ Connection ws →
  ¬ open_observer (wss_clients s) ws →
  ¬ open_observer (wss_clients (step ToPropertyKey s ev).1) ws.
Proof.
  intros Hev Hclosed (c & Hc & Hh & Ho). apply Hclosed.
  destruct ev as [ws'|ws'|ws'|body].
  - cbn [step fst wss_clients] in Hc. apply elem_of_app in Hc as [Hc|Hc].
    + by exists c.
    + apply list_elem_of_singleton in Hc. subst c. cbn in Hh. congruence.
  - cbn [step fst wss_clients] in Hc.
    apply list_elem_of_fmap in Hc as (c0 & -> & Hc0). unfold set_readyState in *.
    destruct (Nat.eqb_spec (handle c0) ws'); [discriminate Ho|by exists c0].
  - cbn [step fst wss_clients] in Hc.
    apply list_elem_of_filter in Hc as [_ Hc]. by exists c.
  - rewrite step_WebhookPost_clients in Hc. by exists c.
Qed.

Lemma run_app s evs1 evs2 :
  run ToPropertyKey s (evs1 ++ evs2)
  = let '(s1, out1) := run ToPropertyKey s evs1 in
    let '(s2, out2) := run ToPropertyKey s1 evs2 in
    (s2, out1 ++ out2).
Proof.
  revert s. induction evs1 as [|ev evs1 IH]; intros s; cbn [run app].
  - by destruct (run _ _ _).
  - destruct (step _ s ev) as [s1 o1]. rewrite IH.
    destruct (run _ s1 evs1) as [s2 o2]. destruct (run _ s2 evs2) as [s3 o3].
    by rewrite app_assoc.
Qed.



End RunFacts.

(** ** The server-side statements *)

Import Server.

Lemma last_written_elem id writes v :
  last_written id writes = Some v → (id, v) ∈ writes.
Proof.
  unfold last_written. intros H.
  destruct (last _) as [[id' v']|] eqn:E; [|done]. injection H as ->.
  apply last_Some_elem_of, list_elem_of_filter in E as [Hid Hin].
  simpl in Hid. by subst id'.
Qed.



(** C2. An observer that connects when the store holds the result of a
    sequence of writes (of defined states) is sent exactly one message, the
    [initial] snapshot, whose [statuses] has exactly the identifiers written,
    as many as there are distinct ones, each with its latest state. *)
Theorem snapshot_on_connection
    (ToPropertyKey : jsval → string) (writes : list (string * jsval))
    (clients : list ws_client) (ws : nat) :
  (∀ s, ToPropertyKey (str s) = s) →
  Forall (λ w, is_Some w.2) writes →
  let s := {| messageStatuses := record_all writes Map_new;
              wss_clients := clients |} in
  ∃ statuses,
    (step ToPropertyKey s (Connection ws)).2 = [(ws, Initial statuses)]
    ∧ dom statuses = written writes
    ∧ size statuses = size (written writes)
    ∧ (∀ id, Some <$> statuses !! id = last_written id writes)
    ∧ wire (Initial statuses)
      = JObj [("type", JStr "initial"); ("statuses", JObj (map_to_list statuses))].
Proof.
  intros Hkey Hdefined s.
  exists (JSON_stringify_object
            (Object_fromEntries ToPropertyKey (record_all writes Map_new))).
  assert (∀ id, Some <$> JSON_stringify_object
             (Object_fromEntries ToPropertyKey (record_all writes Map_new)) !! id
           = last_written id writes) as Hlookup.
  { intros id. unfold JSON_stringify_object.
    rewrite lookup_omap, Object_fromEntries_record_all by done.
    destruct (last_written id writes) as [v|] eqn:E; [|done].
    apply last_written_elem in E.
    rewrite Forall_forall in Hdefined. destruct (Hdefined _ E) as [j Hj].
    simpl in Hj. by subst v. }
  assert (dom (JSON_stringify_object
             (Object_fromEntries ToPropertyKey (record_all writes Map_new)))
          = written writes) as Hdom.
  { apply set_eq. intros id.
    rewrite elem_of_dom, <- last_written_is_Some, <- Hlookup.
    by rewrite fmap_is_Some. }
  split_and!; try done.
  by rewrite <- Hdom, size_dom.
Qed.

Lemma snapshot_on_connection_witness :
  ∃ statuses,
    (step string_key
       {| messageStatuses :=
            record_all [("wamid.1", str "sent"); ("wamid.2", str "sent");
                        ("wamid.1", str "read")] Map_new;
          wss_clients := [] |} (Connection 7)).2 = [(7, Initial statuses)]
    ∧ size statuses = 2
    ∧ statuses !! "wamid.1" = Some (JStr "read").
Proof.
  destruct (snapshot_on_connection string_key
              [("wamid.1", str "sent"); ("wamid.2", str "sent");
               ("wamid.1", str "read")] [] 7 (λ s, eq_refl))
    as (statuses & Hsent & _ & Hsize & Hlookup & _).
  { repeat constructor; by eexists. }
  exists statuses. split_and!; [exact Hsent| |].
  - rewrite Hsize. by vm_compute.
  - specialize (Hlookup "wamid.1").
    change (last_written _ _) with (Some (str "read")) in Hlookup.
    destruct (statuses !! "wamid.1");
      cbv [fmap option_fmap option_map str] in Hlookup; congruence.
Defined.



(** C6. A recognised envelope whose expected fields are missing (no [entry]
    array, entries without [changes], changes for other events or without
    [statuses]) changes neither the store nor the outbox and is answered with
    the success token; when the processing throws, the handler catches it
    and answers with the server fault, keeping what was done before; the
    handler always answers, with one of its three responses; an envelope
    whose [object] is not the expected account type is answered not-found
    and nothing is done. *)
Theorem webhook_tolerates_missing_fields
    (clients : list ws_client) (body : jsval) (e : effects) :
  (recognised_without_statuses body →
     webhook_post clients body e
     = ({| code := 200; text := "EVENT_RECEIVED" |}, e))
  ∧ (∀ e', webhook_try clients body e = (Throw, e') →
       webhook_post clients body e
       = ({| code := 500; text := "Internal Server Error" |}, e'))
  ∧ (webhook_post clients body e).1
      ∈ [ {| code := 200; text := "EVENT_RECEIVED" |};
          {| code := 404; text := "Not Found" |};
          {| code := 500; text := "Internal Server Error" |} ]
  ∧ (∀ object, get body "object" = Normal object →
       object ≠ str "whatsapp_business_account" →
       webhook_post clients body e = ({| code := 404; text := "Not Found" |}, e)).
Proof.
  split_and!.
  - apply webhook_post_silent.
  - intros e'. apply webhook_post_catch.
  - apply webhook_post_responses.
  - intros object. apply webhook_post_unrecognised.
Qed.

Lemma webhook_tolerates_missing_fields_witness :
  let e := {| store := [(str "wamid.1", str "sent")]; outbox := [] |} in
  let account := ("object", JStr "whatsapp_business_account") in
  webhook_post [] (Some (JObj [account])) e
  = ({| code := 200; text := "EVENT_RECEIVED" |}, e)
  ∧ webhook_post []
      (Some (JObj [account;
         ("entry", JArr [JObj [];
                         JObj [("changes", JArr [JObj [("field", JStr "messages");
                                                       ("value", JObj [])]])]])])) e
    = ({| code := 200; text := "EVENT_RECEIVED" |}, e)
  ∧ webhook_post [] (Some (JObj [account; ("entry", JStr "x")])) e
    = ({| code := 500; text := "Internal Server Error" |}, e)
  ∧ webhook_post [] (Some (JObj [("object", JStr "page")])) e
    = ({| code := 404; text := "Not Found" |}, e).
Proof.
  intros e account. split_and!.
  - apply (webhook_tolerates_missing_fields [] (Some (JObj [account])) e).
    apply missing_entry; [reflexivity|by left].
  - refine (proj1 (webhook_tolerates_missing_fields [] _ e) _).
    eapply silent_entries; [reflexivity|reflexivity|].
    apply Forall_cons. split; [apply missing_changes; by left|].
    apply Forall_cons. split; [|constructor].
    eapply silent_changes; [reflexivity|].
    apply Forall_cons. split; [|constructor].
    eapply no_statuses; [reflexivity|reflexivity|left; by left|left; by left].
  - apply (webhook_tolerates_missing_fields []
             (Some (JObj [account; ("entry", JStr "x")])) e).
    reflexivity.
  - apply (webhook_tolerates_missing_fields []
             (Some (JObj [("object", JStr "page")])) e) with (object := str "page").
    + reflexivity.
    + discriminate.
Defined.

(** Outside the tolerated shapes the fault response is used: a [messages]
    change without a [value] makes the handler throw on [value.statuses]; and
    what was recorded before a fault stays recorded. *)
Example webhook_missing_value_faults :
  let e := {| store := []; outbox := [] |} in
  webhook_post []
    (Some (JObj [("object", JStr "whatsapp_business_account");
                 ("entry", JArr [JObj [("changes",
                                        JArr [JObj [("field", JStr "messages")]])]])])) e
  = ({| code := 500; text := "Internal Server Error" |}, e).
Proof. reflexivity. Qed.

Example webhook_fault_keeps_earlier_writes :
  webhook_post []
    (Some (JObj [("object", JStr "whatsapp_business_account");
                 ("entry", JArr [JObj [("changes", JArr [JObj
                                   [("field", JStr "messages");
                                    ("value", JObj [("statuses", JArr
                                       [notification ("wamid.1", str "read")])])]])];
                                 JNull])]))
    {| store := []; outbox := [] |}
  = ({| code := 500; text := "Internal Server Error" |},
     {| store := [(str "wamid.1", str "read")]; outbox := [] |}).
Proof. reflexivity. Qed.

(** ** The client *)

Import Client.

Lemma elem_of_Object_entries {A} (o : gmap nat A) i x :
  (i, x) ∈ Object_entries o ↔ o !! i = Some x.
Proof.
  unfold Object_entries. rewrite merge_sort_Permutation. apply elem_of_map_to_list.
Qed.

Lemma elem_of_Object_values {A} (o : gmap nat A) x :
  x ∈ Object_values o ↔ ∃ i, o !! i = Some x.
Proof.
  unfold Object_values. rewrite list_elem_of_fmap. split.
  - intros ([i y] & -> & Hin). exists i. by apply elem_of_Object_entries.
  - intros (i & Hi). exists (i, x). split; [done|]. by apply elem_of_Object_entries.
Qed.

Lemma find_index_Some messageIds messageId index :
  find_index messageIds messageId = Some index →
  ∃ id, messageIds !! index = Some id ∧ strict_eq (Some id) messageId = true.
Proof.
  unfold find_index. destruct (List.find _ _) as [[i id]|] eqn:E; [|done].
  intros [= <-]. apply find_some in E as [Hin Heq].
  exists id. split; [|done]. by apply elem_of_Object_entries, list_elem_of_In.
Qed.

Lemma find_index_None messageIds messageId :
  find_index messageIds messageId = None → ¬ mapped messageIds messageId.
Proof.
  unfold find_index. destruct (List.find _ _) as [[i id]|] eqn:E; [done|].
  intros _ (index & id & Hid & Heq).
  apply elem_of_Object_entries, list_elem_of_In in Hid.
  pose proof (find_none _ _ E _ Hid) as Hno. cbn beta iota delta [snd] in Hno.
  rewrite Heq in Hno. discriminate Hno.
Qed.

Lemma find_first {A} (f : A → bool) (l : list A) x :
  List.find f l = Some x →
  ∃ l1 l2, l = l1 ++ x :: l2 ∧ Forall (λ y, f y = false) l1 ∧ f x = true.
Proof.
  induction l as [|y l IH]; [done|]. cbn [List.find].
  destruct (f y) eqn:E.
  - intros [= ->]. exists [], l. split_and!; [done|constructor|done].
  - intros (l1 & l2 & -> & Hl1 & Hx)%IH. exists (y :: l1), l2.
    split_and!; [done|by constructor|done].
Qed.

#[local] Instance index_le_transitive {A} : Transitive (@index_le A).
Proof. intros a b c. unfold index_le. lia. Qed.

#[local] Instance index_le_total {A} : Total (@index_le A).
Proof. intros a b. unfold index_le. lia. Qed.

(** The index found is the lowest that holds the identifier. *)
Lemma find_index_least messageIds messageId index :
  find_index messageIds messageId = Some index →
  ∀ lower id, lower < index → messageIds !! lower = Some id →
    strict_eq (Some id) messageId = false.
Proof.
  unfold find_index. destruct (List.find _ _) as [[i x]|] eqn:E; [|done].
  intros [= <-] lower id Hlt Hid.
  apply find_first in E as (l1 & l2 & Hl & Hl1 & _).
  apply elem_of_Object_entries in Hid. rewrite Hl in Hid.
  apply elem_of_app in Hid as [Hid|Hid].
  - rewrite Forall_forall in Hl1. apply (Hl1 _ Hid).
  - pose proof (StronglySorted_merge_sort index_le (map_to_list messageIds)) as Hs.
    fold (Object_entries messageIds) in Hs. rewrite Hl in Hs.
    apply StronglySorted_app in Hs as (_ & _ & Hs).
    apply StronglySorted_cons in Hs as [Hall _].
    apply elem_of_cons in Hid as [[= -> _]|Hid]; [lia|].
    rewrite Forall_forall in Hall. specialize (Hall _ Hid).
    unfold index_le in Hall. cbn in Hall. lia.
Qed.

Lemma onmessage_status_update fields (s : state) :
  own_property "type" fields = str "status_update" →
  onmessage (Normal (JObj fields)) s
  = match find_index (messageIds s) (own_property "messageId" fields) with
    | Some indexNum =>
        setMessageStatuses
          (λ prev, <[indexNum := own_property "status" fields]> prev) s
    | None => s
    end.
Proof.
  intros Htype. unfold onmessage, onmessage_try. cbn [get]. rewrite Htype.
  cbn [strict_eq str]. rewrite String.eqb_refl.
  by destruct (find_index _ _).
Qed.



(** C10. The [initial] snapshot is only logged: whatever it carries, the
    statuses shown and the identifiers recorded are left as they were. *)
Theorem initial_snapshot_ignored (fields : list (string * json)) (s : state) :
  own_property "type" fields = str "initial" →
  onmessage (Normal (JObj fields)) s = s
  ∧ (∀ statuses, onmessage (Normal (wire (Initial statuses))) s = s).
Proof.
  intros Htype. split; [|done].
  unfold onmessage, onmessage_try. cbn [get]. by rewrite Htype.
Qed.

Lemma initial_snapshot_ignored_witness :
  let s := {| extractedChallans := [];
              messageStatuses := {[ 0 := sent ]};
              messageIds := {[ 0 := JStr "wamid.1" ]} |} in
  onmessage (Normal (JObj [("type", JStr "initial");
                           ("statuses", JObj [("wamid.1", JStr "delivered")])])) s
  = s.
Proof.
  intros s.
  exact (proj1 (initial_snapshot_ignored
                  [("type", JStr "initial");
                   ("statuses", JObj [("wamid.1", JStr "delivered")])] s eq_refl)).
Defined.

(** ** Dispatch *)

Lemma paced_app (ps qs : list (nat * nat * nat)) :
  paced ps → paced qs →
  (∀ p q, p ∈ ps → q ∈ qs →
     p.2 ≤ q.1.2 ∧ (q.1.1 ≠ p.1.1 → p.2 + pacing ≤ q.1.2)) →
  paced (ps ++ qs).
Proof.
  induction ps as [|[[i start] finish] ps IH]; intros Hps Hqs Hcross; [done|].
  destruct Hps as (Hle & Hrest & Hps). cbn [app paced]. split_and!; [done| |].
  - apply Forall_app. split; [done|].
    apply Forall_forall. intros q Hq. apply (Hcross (i, start, finish) q); [left|done].
  - apply IH; [done|done|]. intros p q Hp Hq. apply Hcross; [by right|done].
Qed.

Lemma posts_app (t1 t2 : list effect) : posts (t1 ++ t2) = posts t1 ++ posts t2.
Proof. apply omap_app. Qed.

Lemma requests_for_app index (t1 t2 : list effect) :
  requests_for index (t1 ++ t2) = requests_for index t1 ++ requests_for index t2.
Proof. apply omap_app. Qed.

Lemma extends_refl w : extends w w [].
Proof. split; [by rewrite app_nil_r|done]. Qed.

Lemma extends_trans w1 w2 w3 t1 t2 :
  extends w1 w2 t1 → extends w2 w3 t2 → extends w1 w3 (t1 ++ t2).
Proof.
  intros [H1 L1] [H2 L2]. split; [|lia]. by rewrite H2, H1, app_assoc.
Qed.

Lemma within_weaken (I J : nat → Prop) lo lo' hi hi' ps :
  (∀ i, I i → J i) → lo' ≤ lo → hi ≤ hi' →
  within I lo hi ps → within J lo' hi' ps.
Proof.
  intros HIJ Hlo Hhi Hps. unfold within in *.
  eapply Forall_impl; [exact Hps|].
  intros p (? & ? & ?). split_and!; [auto|lia|lia].
Qed.

Lemma within_app (I : nat → Prop) lo hi ps qs :
  within I lo hi ps → within I lo hi qs → within I lo hi (ps ++ qs).
Proof. intros. by apply Forall_app. Qed.

(** Closes the goals left once the effects added to a trace are known. *)
Ltac close_trace :=
  split_and!;
  [ rewrite <- ?app_assoc; reflexivity
  | cbn; lia
  | unfold within; cbn; repeat constructor; cbn; lia
  | cbn; repeat (first [lia | done | constructor | split]); cbn; lia
  | intros last [-> | ->]; cbn; repeat split; auto ].

Lemma last_item_app last (t1 t2 : list effect) :
  last_item last (t1 ++ t2) = last_item (last_item last t1) t2.
Proof.
  revert last. induction t1 as [|e t1 IH]; intros last; [done|].
  destruct e; cbn; apply IH.
Qed.

Lemma separated_app last (t1 t2 : list effect) :
  separated last t1 → separated (last_item last t1) t2 → separated last (t1 ++ t2).
Proof.
  revert last. induction t1 as [|e t1 IH]; intros last H1 H2; [done|].
  destruct e; cbn in *; try (by apply IH).
  - destruct H1 as [Hi H1]. split; [done|by apply IH].
  - destruct H1 as [Hms H1]. split; [done|by apply IH].
Qed.

Section DispatchFacts.

Variable env : environment.
Variable formatChallanMessage : ChallanData → string.

(** What [record_sent] does when it completes. *)
Lemma record_sent_Some index settled w w' :
  record_sent index settled w = Some w' →
  trace w' = trace w ∧ now w' = now w
  ∧ extractedChallans (ui w') = extractedChallans (ui w)
  ∧ messageStatuses (ui w') = <[index := sent]> (messageStatuses (ui w))
  ∧ ∃ data messageId,
      settled = Resolved data ∧ message_id data = Normal messageId
      ∧ messageIds (ui w')
        = match messageId with
          | Some id => if truthy messageId
                       then <[index := id]> (messageIds (ui w))
                       else messageIds (ui w)
          | None => messageIds (ui w)
          end.
Proof.
  unfold record_sent. destruct settled as [|data]; [done|].
  destruct (message_id data) as [messageId|] eqn:E; [|done].
  intros [= <-]. split_and!; try done.
  - by destruct messageId as [id|]; [destruct (truthy _)|].
  - by destruct messageId as [id|]; [destruct (truthy _)|].
  - by destruct messageId as [id|]; [destruct (truthy _)|].
  - by destruct messageId as [id|]; [destruct (truthy _)|].
  - exists data, messageId. split_and!; try done.
    by destruct messageId as [id|]; [destruct (truthy _)|].
Qed.

Lemma record_sent_ids index settled w w' :
  record_sent index settled w = Some w' →
  messageIds (ui w') = messageIds (ui w)
  ∨ ∃ data id,
      settled = Resolved data ∧ message_id data = Normal (Some id)
      ∧ truthy (Some id) = true
      ∧ messageIds (ui w') = <[index := id]> (messageIds (ui w)).
Proof.
  intros (_ & _ & _ & _ & data & messageId & -> & Hid & Hids)%record_sent_Some.
  destruct messageId as [id|]; [|by left].
  destruct (truthy (Some id)) eqn:E; [|by left].
  right. by exists data, id.
Qed.

(** What one call of [sendWhatsAppMessage] may do. *)
Lemma sendWhatsAppMessage_spec a mobile challanData index w :
  let w' := sendWhatsAppMessage env formatChallanMessage a mobile challanData index w in
  extractedChallans (ui w') = extractedChallans (ui w)
  ∧ (∀ j, j ≠ index →
       messageStatuses (ui w') !! j = messageStatuses (ui w) !! j)
  ∧ (messageIds (ui w') = messageIds (ui w)
     ∨ ∃ data id,
         (settles (to_template a) = Resolved data
          ∨ settles (to_text a) = Resolved data)
         ∧ message_id data = Normal (Some id)
         ∧ truthy (Some id) = true
         ∧ messageIds (ui w') = <[index := id]> (messageIds (ui w)))
  ∧ ∃ added,
      extends w w' added
      ∧ within (eq index) (now w) (now w') (posts added)
      ∧ paced (posts added)
      ∧ (∀ last, last = None ∨ last = Some index →
           separated last added
           ∧ (last_item last added = last ∨ last_item last added = Some index)).
Proof.
  unfold sendWhatsAppMessage. destruct (credentials_missing env).
  { split_and!; try done; [by left|].
    exists [Alert "Please configure WhatsApp API credentials in .env file" (now w)].
    split_and!; [done|constructor|done|].
    intros last _. cbn. auto. }
  set (w1 := update (setMessageStatuses (λ prev, <[index := sending]> prev)) w).
  set (w2 := await_post index _ (to_template a) w1).
  destruct (record_sent index (settles (to_template a)) w2) as [w3|] eqn:E1.
  { pose proof (record_sent_ids _ _ _ _ E1) as Hids.
    apply record_sent_Some in E1 as (Htrace & Hnow & Hch & Hst & _).
    split_and!.
    - by rewrite Hch.
    - intros j Hj. rewrite Hst. unfold w2, w1. cbn.
      by rewrite !lookup_insert_ne.
    - destruct Hids as [->|(data & id & ? & ? & ? & ->)]; [by left|].
      right. exists data, id. split_and!; try done. by left.
    - eexists. unfold extends. rewrite Htrace, Hnow. unfold w2, w1.
      cbn [await_post update trace now]. close_trace. }
  set (w3 := await_post index _ (to_text a) w2).
  destruct (record_sent index (settles (to_text a)) w3) as [w4|] eqn:E2.
  { pose proof (record_sent_ids _ _ _ _ E2) as Hids.
    apply record_sent_Some in E2 as (Htrace & Hnow & Hch & Hst & _).
    split_and!.
    - by rewrite Hch.
    - intros j Hj. rewrite Hst. unfold w3, w2, w1. cbn.
      by rewrite !lookup_insert_ne.
    - destruct Hids as [->|(data & id & ? & ? & ? & ->)]; [by left|].
      right. exists data, id. split_and!; try done. by right.
    - eexists. unfold extends. rewrite Htrace, Hnow. unfold w3, w2, w1.
      cbn [await_post update trace now]. close_trace. }
  split_and!.
  - done.
  - intros j Hj. cbn. by rewrite !lookup_insert_ne.
  - by left.
  - eexists. unfold extends, w3, w2, w1. cbn [alert await_post update trace now].
    close_trace.
Qed.

Lemma requests_for_other index (t : list effect) (I : nat → Prop) lo hi :
  within I lo hi (posts t) → ¬ I index → requests_for index t = [].
Proof.
  intros Hw Hnot. induction t as [|e t IH]; [done|].
  destruct e as [i r start finish| | |]; cbn in Hw |- *; try by apply IH.
  apply Forall_cons in Hw as [(Hi & _) Hw]. cbn in Hi.
  destruct (Nat.eqb_spec i index) as [->|_]; [done|by apply IH].
Qed.

(** With credentials, the first request of a send is the templated one. *)
Lemma sendWhatsAppMessage_requests a mobile challanData index w :
  credentials_missing env = false →
  ∃ more,
    requests_for index
      (trace (sendWhatsAppMessage env formatChallanMessage a mobile challanData index w))
    = requests_for index (trace w)
      ++ TemplateMessage mobile (TEMPLATE_NAME env) :: more.
Proof.
  intros Hcred. unfold sendWhatsAppMessage. rewrite Hcred.
  set (w1 := update (setMessageStatuses (λ prev, <[index := sending]> prev)) w).
  set (w2 := await_post index _ (to_template a) w1).
  assert (requests_for index (trace w2)
          = requests_for index (trace w)
            ++ [TemplateMessage mobile (TEMPLATE_NAME env)]) as H2.
  { unfold w2, w1. cbn [await_post update trace]. rewrite requests_for_app.
    cbn. by rewrite Nat.eqb_refl. }
  destruct (record_sent index (settles (to_template a)) w2) as [w3|] eqn:E1.
  { apply record_sent_Some in E1 as (-> & _). exists []. by rewrite H2. }
  set (w3 := await_post index _ (to_text a) w2).
  assert (requests_for index (trace w3)
          = requests_for index (trace w)
            ++ [TemplateMessage mobile (TEMPLATE_NAME env);
                TextMessage mobile (formatChallanMessage challanData)]) as H3.
  { unfold w3. cbn [await_post trace]. rewrite requests_for_app, H2.
    cbn. rewrite Nat.eqb_refl. by rewrite <- app_assoc. }
  destruct (record_sent index (settles (to_text a)) w3) as [w4|] eqn:E2.
  { apply record_sent_Some in E2 as (-> & _). eexists. by rewrite H3. }
  cbn [alert update trace]. rewrite requests_for_app, H3. cbn.
  rewrite app_nil_r. by eexists.
Qed.

(** The batch loop, from item [i]. *)
Lemma send_loop_spec provider late n i rest w :
  n = i + length rest →
  let w' := send_loop env formatChallanMessage provider late n i rest w in
  extractedChallans (ui w') = extractedChallans (ui w)
  ∧ ∃ added,
      extends w w' added
      ∧ within (λ j, i ≤ j < n) (now w) (now w') (posts added)
      ∧ paced (posts added)
      ∧ (∀ last, last = None ∨ rest = [] → separated last added).
Proof.
  revert i w. induction rest as [|challan rest IH]; intros i w Hn; cbn [send_loop].
  { split; [done|]. exists []. split_and!; [apply extends_refl|constructor|done|done]. }
  cbn [length] in Hn.
  destruct (sendWhatsAppMessage_spec (provider i) (mobile challan) (data challan) i w)
    as (Hch1 & _ & _ & a1 & Hext1 & Hin1 & Hp1 & Hs1).
  set (w1 := sendWhatsAppMessage _ _ _ _ _ _ w) in *.
  set (w2 := if i <? n - 1 then await_timeout 1000 (late i) w1 else w1).
  assert (extractedChallans (ui w2) = extractedChallans (ui w1)) as Hch2.
  { unfold w2. by destruct (i <? n - 1). }
  assert (∃ a, extends w1 w2 a ∧ posts a = []
               ∧ (i < n - 1 → now w1 + pacing ≤ now w2)
               ∧ (∀ last, separated last a)
               ∧ (∀ last, last_item last a = None ∨ rest = [] ∧ a = []))
    as (a12 & Hext12 & Hno & Hgap & Hs12 & Hl12).
  { unfold w2. destruct (Nat.ltb_spec i (n - 1)) as [Hlt|Hge].
    - eexists. split_and!; [split; [reflexivity|cbn; lia]|done| | |].
      + intros _. cbn. unfold pacing. lia.
      + intros last. by cbn.
      + intros last. by left.
    - exists []. split_and!; [apply extends_refl|done|lia|done|].
      intros last. right. split; [|done]. destruct rest; [done|cbn in Hn; lia]. }
  destruct (IH (S i) w2) as (Hch3 & a2 & Hext2 & Hin2 & Hp2 & Hs2); [lia|].
  split; [by rewrite Hch3, Hch2|].
  exists (a1 ++ a12 ++ a2).
  pose proof Hext1 as [_ L1]. pose proof Hext12 as [_ L12]. pose proof Hext2 as [_ L2].
  split_and!.
  - eapply extends_trans; [exact Hext1|]. eapply extends_trans; done.
  - rewrite !posts_app, Hno. cbn [app]. apply within_app.
    + eapply within_weaken; [| | |exact Hin1];
        [intros j <-; cbn beta; lia|lia|lia].
    + eapply within_weaken; [| | |exact Hin2];
        [intros j Hj; cbn beta in Hj |- *; lia|lia|lia].
  - rewrite !posts_app, Hno. cbn [app]. apply paced_app; [done|done|].
    intros p q Hp Hq.
    unfold within in Hin1, Hin2. rewrite Forall_forall in Hin1, Hin2.
    destruct (Hin1 _ Hp) as (Hpi & _ & Hpf).
    destruct (Hin2 _ Hq) as (Hqi & Hqs & _).
    assert (i < n - 1) as Hlt by lia. specialize (Hgap Hlt). unfold pacing in *.
    split; [lia|]. intros _. lia.
  - intros last [-> | Hnil]; [|done].
    destruct (Hs1 None (or_introl eq_refl)) as [Hsep1 _].
    apply separated_app; [done|]. apply separated_app; [done|].
    apply Hs2. destruct (Hl12 (last_item None a1)) as [-> | [-> _]]; [by left|by right].
Qed.

(** With credentials, the loop makes the templated request for each of
    its items. *)
Lemma send_loop_requests provider late n i rest w k challan :
  credentials_missing env = false →
  n = i + length rest →
  rest !! k = Some challan →
  ∃ more,
    requests_for (i + k)
      (trace (send_loop env formatChallanMessage provider late n i rest w))
    = requests_for (i + k) (trace w)
      ++ TemplateMessage (mobile challan) (TEMPLATE_NAME env) :: more.
Proof.
  intros Hcred. revert i w k.
  induction rest as [|c rest IH]; intros i w k Hn Hk; [done|].
  cbn [send_loop]. cbn [length] in Hn.
  set (w1 := sendWhatsAppMessage _ _ _ _ _ _ w).
  set (w2 := if i <? n - 1 then await_timeout 1000 (late i) w1 else w1).
  assert (∀ j, requests_for j (trace w2) = requests_for j (trace w1)) as H12.
  { intros j. unfold w2. destruct (i <? n - 1); [|done].
    cbn [await_timeout trace]. rewrite requests_for_app. cbn. by rewrite app_nil_r. }
  destruct k as [|k].
  - injection Hk as ->. rewrite Nat.add_0_r.
    destruct (sendWhatsAppMessage_requests (provider i) (mobile challan)
                (data challan) i w Hcred) as (more & Hreq).
    fold w1 in Hreq.
    destruct (send_loop_spec provider late n (S i) rest w2) as
      (_ & a2 & [Ht2 _] & Hin2 & _); [lia|].
    rewrite Ht2, requests_for_app, H12, Hreq.
    rewrite (requests_for_other i a2 _ _ _ Hin2) by lia.
    rewrite app_nil_r. by exists more.
  - cbn in Hk. destruct (IH (S i) w2 k) as (more & Hreq); [lia|done|].
    replace (i + S k) with (S i + k) by lia. rewrite Hreq, H12.
    destruct (sendWhatsAppMessage_spec (provider i) (mobile c) (data c) i w)
      as (_ & _ & _ & a1 & [Ht1 _] & Hin1 & _).
    fold w1 in Ht1. rewrite Ht1, requests_for_app.
    rewrite (requests_for_other (S i + k) a1 _ _ _ Hin1) by lia.
    rewrite app_nil_r. by exists more.
Qed.

End DispatchFacts.

(** ** The client-side statements *)

(** With the operator's confirmation and credentials, a run of
    [sendAllMessages] makes the templated request for every item. *)
Lemma sendAllMessages_requests
    (env : environment) (formatChallanMessage : ChallanData → string)
    (provider : nat → answers) (late : nat → nat) (w : world) i challan :
  credentials_missing env = false →
  extractedChallans (ui w) !! i = Some challan →
  ∃ more,
    requests_for i
      (trace (sendAllMessages env formatChallanMessage true provider late w))
    = requests_for i (trace w)
      ++ TemplateMessage (mobile challan) (TEMPLATE_NAME env) :: more.
Proof.
  intros Hcred Hi. unfold sendAllMessages.
  destruct (Nat.eqb_spec (length (extractedChallans (ui w))) 0) as [Hlen|Hlen].
  { apply lookup_lt_Some in Hi. lia. }
  rewrite Hcred. cbn [negb]. set (w0 := confirm _ true w).
  destruct (send_loop_requests env formatChallanMessage provider late
              (length (extractedChallans (ui w))) 0 (extractedChallans (ui w))
              w0 i challan Hcred eq_refl Hi) as (more & Hreq).
  exists more. cbn [Nat.add] in Hreq. rewrite Hreq. unfold w0.
  cbn [confirm trace]. rewrite requests_for_app. cbn. by rewrite app_nil_r.
Qed.

(** C8. One run of [sendAllMessages] makes its requests one after the
    other: each starts when the ones before it have finished, and a request
    for another item starts at least the pacing interval (1000 ms) after
    them; in the trace, a timer of the pacing interval is awaited between the
    requests of two different items; the requests are for items of the
    batch, and, once the operator has confirmed and credentials are
    configured, every item gets its templated request. *)
Theorem batch_sends_are_paced
    (env : environment) (formatChallanMessage : ChallanData → string)
    (accepted : bool) (provider : nat → answers) (late : nat → nat) (w : world) :
  let w' := sendAllMessages env formatChallanMessage accepted provider late w in
  ∃ added,
    extends w w' added
    ∧ paced (posts added)
    ∧ separated None added
    ∧ within (λ i, i < length (extractedChallans (ui w))) (now w) (now w')
        (posts added)
    ∧ (accepted = true → credentials_missing env = false →
       ∀ i challan, extractedChallans (ui w) !! i = Some challan →
         ∃ more, requests_for i added
                 = TemplateMessage (mobile challan) (TEMPLATE_NAME env) :: more).
Proof.
  intros w'. subst w'. unfold sendAllMessages.
  destruct (Nat.eqb_spec (length (extractedChallans (ui w))) 0) as [Hlen|Hlen].
  { eexists. split_and!; [split; [reflexivity|done]|done|done|constructor|].
    intros _ _ i challan Hi. apply lookup_lt_Some in Hi. lia. }
  destruct (credentials_missing env) eqn:Hcred.
  { eexists. split_and!; [split; [reflexivity|done]|done|done|constructor|done]. }
  set (w0 := confirm _ accepted w).
  destruct accepted; cbn [negb].
  2:{ eexists. split_and!; [split; [reflexivity|done]|done|done|constructor|done]. }
  destruct (send_loop_spec env formatChallanMessage provider late
              (length (extractedChallans (ui w))) 0 (extractedChallans (ui w)) w0)
    as (_ & a & [Ht Hn] & Hin & Hp & Hs); [done|].
  exists (Confirm ("Send WhatsApp messages to "
                   +:+ pretty (length (extractedChallans (ui w))) +:+ " numbers?")
            true (now w) :: a).
  split_and!.
  - split; [|exact Hn]. rewrite Ht. unfold w0. cbn [confirm trace].
    by rewrite <- app_assoc.
  - exact Hp.
  - cbn [separated]. apply Hs. by left.
  - eapply within_weaken; [| | |exact Hin];
      [intros i Hi; cbn beta in Hi |- *; lia|done|done].
  - intros _ _ i challan Hi.
    destruct (send_loop_requests env formatChallanMessage provider late
                (length (extractedChallans (ui w))) 0 (extractedChallans (ui w))
                w0 i challan Hcred eq_refl Hi) as (more & Hreq).
    exists more. cbn [Nat.add] in Hreq. rewrite Ht, requests_for_app in Hreq.
    apply app_inv_head in Hreq. exact Hreq.
Qed.

Lemma batch_sends_are_paced_witness :
  ∃ added,
    trace (sendAllMessages example_env example_format true
             (λ i, if Nat.eqb i 0 then accepting "wamid.A" else rejecting)
             (λ _, 3) fresh_world) = added
    ∧ paced (posts added)
    ∧ posts added = [(0, 0, 5); (1, 1008, 1013); (1, 1013, 1020)]
    ∧ ∃ more, requests_for 1 added
              = TemplateMessage "919800000002" "hello_world" :: more.
Proof.
  destruct (batch_sends_are_paced example_env example_format true
              (λ i, if Nat.eqb i 0 then accepting "wamid.A" else rejecting)
              (λ _, 3) fresh_world) as (added & [Ht _] & Hp & _ & _ & Hreq).
  exists added. split_and!.
  - exact Ht.
  - exact Hp.
  - vm_compute in Ht. by subst added.
  - exact (Hreq eq_refl eq_refl 1 _ eq_refl).
Defined.



(** The scenarios of the specification, end to end: the first item ends
    [delivered] and the server answers [delivered] for its identifier; the
    second ends [sent] with the identifier of the fallback; the third ends
    [error] with no identifier, and nothing the server sent mentions it. *)
Example scenario_end_to_end :
  (messageStatuses scenario_reconciled !! 0 = Some delivered
   ∧ messageStatuses scenario_reconciled !! 1 = Some sent
   ∧ messageStatuses scenario_reconciled !! 2 = Some error)
  ∧ (messageIds scenario_reconciled !! 0 = Some (JStr "wamid.1")
     ∧ messageIds scenario_reconciled !! 1 = Some (JStr "wamid.2x")
     ∧ messageIds scenario_reconciled !! 2 = None)
  ∧ api_status (Server.messageStatuses scenario_server.1) "wamid.1" = str "delivered"
  ∧ received 1 scenario_server.2
    = [Initial ∅; StatusUpdate (str "wamid.1") (str "delivered")].
Proof. by vm_compute. Qed.

(** The lookup of an identifier held by two items finds the lower index. *)
Example find_index_lowest :
  find_index {[ 3 := JStr "x"; 1 := JStr "x"; 2 := JStr "y" ]} (str "x") = Some 1.
Proof. reflexivity. Qed.

(** ** Guards of the dispatch triggers *)

Lemma guarded_disabled status : guarded status ↔ send_btn_disabled status = true.
Proof.
  unfold guarded, send_btn_disabled. rewrite !orb_true_iff.
  unfold sending, sent, delivered, read. rewrite !strict_eq_str_r. tauto.
Qed.

Lemma status_of_sending (s : state) index :
  status_of s index = sending → messageStatuses s !! index = Some sending.
Proof.
  unfold status_of. destruct (messageStatuses s !! index) as [status|]; cbn.
  - destruct (truthy status); [by intros ->|discriminate].
  - discriminate.
Qed.

Lemma send_all_btn_disabled_sending (s : state) index :
  messageStatuses s !! index = Some sending → send_all_btn_disabled s = true.
Proof.
  intros Hs. unfold send_all_btn_disabled. apply existsb_exists.
  exists sending. split; [|done].
  apply list_elem_of_In, elem_of_Object_values. by exists index.
Qed.

Lemma onmessage_messageIds parsed (s : state) :
  messageIds (onmessage parsed s) = messageIds s.
Proof.
  unfold onmessage, onmessage_try.
  destruct parsed as [data|]; [|done].
  destruct (get (Some data) "type") as [type|]; [|done].
  destruct (strict_eq type (str "status_update")).
  - destruct (get (Some data) "messageId") as [messageId|]; [|done].
    destruct (get (Some data) "status") as [status|]; [|done].
    by destruct (find_index _ _).
  - by destruct (strict_eq type (str "initial")).
Qed.

Lemma click_send_respects_guard env formatChallanMessage a i :
  respects_guard (click_send env formatChallanMessage a i).
Proof.
  intros w index Hg. unfold click_send.
  destruct (extractedChallans (ui w) !! i) as [challan|]; [|done].
  destruct (send_btn_disabled (status_of (ui w) i)) eqn:Hd; [done|].
  destruct (decide (index = i)) as [->|Hne].
  { apply guarded_disabled in Hg. congruence. }
  destruct (sendWhatsAppMessage_spec env formatChallanMessage a (mobile challan)
              (data challan) i w) as (_ & _ & _ & added & [Ht _] & Hin & _).
  rewrite Ht, requests_for_app.
  rewrite (requests_for_other index added _ _ _ Hin) by done.
  by rewrite app_nil_r.
Qed.

Lemma send_loop_keeps_identifiers env formatChallanMessage provider late n i rest w
    index id :
  index < i →
  messageIds (ui w) !! index = Some id →
  messageIds (ui (send_loop env formatChallanMessage provider late n i rest w)) !! index
  = Some id.
Proof.
  revert i w. induction rest as [|challan rest IH]; intros i w Hlt Hid; [done|].
  cbn [send_loop]. apply IH; [lia|].
  assert (messageIds (ui (sendWhatsAppMessage env formatChallanMessage (provider i)
                            (mobile challan) (data challan) i w)) !! index = Some id)
    as Hkept.
  { destruct (sendWhatsAppMessage_spec env formatChallanMessage (provider i)
                (mobile challan) (data challan) i w)
      as (_ & _ & [->|(d & id' & _ & _ & _ & ->)] & _); [done|].
    rewrite lookup_insert_ne by lia. done. }
  by destruct (i <? n - 1).
Qed.

Lemma message_id_throws data :
  message_id data = Throw ↔ data = None ∨ data = Some JNull.
Proof.
  unfold message_id. destruct data as [[| b | n | s | items | fields]|]; cbn.
  - split; [by right|done].
  - split; [done|by intros [|]].
  - split; [done|by intros [|]].
  - split; [done|by intros [|]].
  - split; [done|by intros [|]].
  - split; [|by intros [|]].
    unfold get_opt. by destruct (get_opt_0 _) as [[]|].
  - split; [by left|done].
Qed.

Lemma completes_false settled :
  completes settled = false
  ↔ settled = Rejected ∨ settled = Resolved None ∨ settled = Resolved (Some JNull).
Proof.
  unfold completes. destruct settled as [|data].
  { split; [by left|done]. }
  destruct (message_id data) as [messageId|] eqn:E.
  - split; [done|]. intros [H|[[= ->]|[= ->]]]; done.
  - apply message_id_throws in E as [->| ->]; split; auto.
Qed.

Lemma record_sent_completes index settled w :
  completes settled = true →
  ∃ w', record_sent index settled w = Some w'.
Proof.
  unfold completes, record_sent. destruct settled as [|data]; [done|].
  destruct (message_id data); [|done]. by eexists.
Qed.

Lemma record_sent_fails index settled w :
  completes settled = false → record_sent index settled w = None.
Proof.
  unfold completes, record_sent. destruct settled as [|data]; [done|].
  by destruct (message_id data).
Qed.

(** A send and the batch loop read neither the statuses nor the
    identifiers: the requests they make, and when, are the same whatever the
    state is and whatever other handlers do to it meanwhile. *)
Lemma sendWhatsAppMessage_among_trace env formatChallanMessage
    (meanwhile1 meanwhile2 : state → state) a mobile challanData index
    (w w2 : world) :
  now w2 = now w → trace w2 = trace w →
  now (sendWhatsAppMessage_among env formatChallanMessage meanwhile1 meanwhile2
         a mobile challanData index w2)
  = now (sendWhatsAppMessage env formatChallanMessage a mobile challanData index w)
  ∧ trace (sendWhatsAppMessage_among env formatChallanMessage meanwhile1 meanwhile2
             a mobile challanData index w2)
    = trace (sendWhatsAppMessage env formatChallanMessage a mobile challanData index w).
Proof.
  intros Hnow Htrace. unfold sendWhatsAppMessage_among, sendWhatsAppMessage.
  destruct (credentials_missing env).
  { cbn. by rewrite Hnow, Htrace. }
  set (v := await_post index _ (to_template a)
              (update (setMessageStatuses (λ prev, <[index := sending]> prev)) w)).
  set (v2 := update meanwhile1
               (await_post index _ (to_template a)
                  (update (setMessageStatuses (λ prev, <[index := sending]> prev)) w2))).
  assert (now v2 = now v ∧ trace v2 = trace v) as [Hn1 Ht1].
  { unfold v, v2. cbn. by rewrite Hnow, Htrace. }
  destruct (completes (settles (to_template a))) eqn:E1.
  { destruct (record_sent_completes index _ v E1) as (r & Hr).
    destruct (record_sent_completes index _ v2 E1) as (r2 & Hr2).
    rewrite Hr, Hr2.
    apply record_sent_Some in Hr as (Ht & Hn & _).
    apply record_sent_Some in Hr2 as (Ht' & Hn' & _).
    by rewrite Ht, Hn, Ht', Hn'. }
  rewrite (record_sent_fails index _ v E1), (record_sent_fails index _ v2 E1).
  set (x := await_post index _ (to_text a) v).
  set (x2 := update meanwhile2 (await_post index _ (to_text a) v2)).
  assert (now x2 = now x ∧ trace x2 = trace x) as [Hn2 Ht2].
  { unfold x, x2. cbn [update await_post now trace]. by rewrite Hn1, Ht1. }
  destruct (completes (settles (to_text a))) eqn:E2.
  { destruct (record_sent_completes index _ x E2) as (r & Hr).
    destruct (record_sent_completes index _ x2 E2) as (r2 & Hr2).
    rewrite Hr, Hr2.
    apply record_sent_Some in Hr as (Ht & Hn & _).
    apply record_sent_Some in Hr2 as (Ht' & Hn' & _).
    by rewrite Ht, Hn, Ht', Hn'. }
  rewrite (record_sent_fails index _ x E2), (record_sent_fails index _ x2 E2).
  cbn [alert update now trace]. by rewrite Hn2, Ht2.
Qed.

Lemma send_loop_among_trace env formatChallanMessage
    (meanwhile : nat → nat → state → state) provider late n i rest (w w2 : world) :
  now w2 = now w → trace w2 = trace w →
  now (send_loop_among env formatChallanMessage meanwhile provider late n i rest w2)
  = now (send_loop env formatChallanMessage provider late n i rest w)
  ∧ trace (send_loop_among env formatChallanMessage meanwhile provider late n i rest w2)
    = trace (send_loop env formatChallanMessage provider late n i rest w).
Proof.
  revert i w w2. induction rest as [|challan rest IH]; intros i w w2 Hnow Htrace;
    [done|].
  cbn [send_loop_among send_loop].
  destruct (sendWhatsAppMessage_among_trace env formatChallanMessage
              (meanwhile i 0) (meanwhile i 1) (provider i) (mobile challan)
              (data challan) i w w2 Hnow Htrace) as [Hn1 Ht1].
  apply IH.
  - destruct (i <? n - 1); cbn; by rewrite Hn1.
  - destruct (i <? n - 1); cbn; by rewrite ?Hn1, Ht1.
Qed.

Lemma sendAllMessages_among_trace env formatChallanMessage
    (meanwhile : nat → nat → state → state) accepted provider late (w w2 : world) :
  extractedChallans (ui w2) = extractedChallans (ui w) →
  now w2 = now w → trace w2 = trace w →
  trace (sendAllMessages_among env formatChallanMessage meanwhile accepted
           provider late w2)
  = trace (sendAllMessages env formatChallanMessage accepted provider late w).
Proof.
  intros Hch Hnow Htrace. unfold sendAllMessages_among, sendAllMessages.
  rewrite Hch. destruct (Nat.eqb _ 0).
  { cbn. by rewrite Hnow, Htrace. }
  destruct (credentials_missing env).
  { cbn. by rewrite Hnow, Htrace. }
  destruct accepted; cbn [negb].
  - apply send_loop_among_trace; cbn; by rewrite ?Hnow, ?Htrace.
  - cbn. by rewrite Hnow, Htrace.
Qed.

(** C5, as written, fails for the whole-batch trigger: with item 0 already
    [sent] (and nothing [sending]), a confirmed send-all makes the templated
    request for item 0 again. *)
Lemma send_all_ignores_guard :
  let trigger := click_send_all example_env example_format true
                   (λ _, accepting "wamid.B") (λ _, 0) in
  status_of (ui sent_world) 0 = sent
  ∧ requests_for 0 (trace sent_world) = []
  ∧ requests_for 0 (trace (trigger sent_world))
    = [TemplateMessage "919800000001" "hello_world"]
  ∧ ¬ respects_guard trigger.
Proof.
  intros trigger. split_and!; [reflexivity|reflexivity|reflexivity|].
  intros H. specialize (H sent_world 0).
  assert (guarded (status_of (ui sent_world) 0)) as Hg by (right; left; reflexivity).
  specialize (H Hg). vm_compute in H. discriminate H.
Qed.

(** C5, amended. The send button of an item makes no request for an item
    whose state is [sending], [sent], [delivered] or [read] (the button of
    such an item does nothing at all), and it dispatches an item in the
    initial or [error] state. The send-all button does nothing while some
    item is [sending]; a click on it that the operator does not confirm
    makes no request and changes no status; once confirmed, it dispatches
    every item of the batch, whatever its state: the batch reads neither the
    statuses nor the identifiers, so that it makes the same requests from any
    state and whatever other handlers do to the state while it runs. *)
Theorem send_button_guard
    (env : environment) (formatChallanMessage : ChallanData → string) :
  (∀ a i, respects_guard (click_send env formatChallanMessage a i))
  ∧ (∀ a i w, guarded (status_of (ui w) i) →
       click_send env formatChallanMessage a i w = w)
  ∧ (∀ a i w challan,
       extractedChallans (ui w) !! i = Some challan →
       status_of (ui w) i = idle ∨ status_of (ui w) i = error →
       credentials_missing env = false →
       ∃ more,
         requests_for i (trace (click_send env formatChallanMessage a i w))
         = requests_for i (trace w)
           ++ TemplateMessage (mobile challan) (TEMPLATE_NAME env) :: more)
  ∧ (∀ accepted provider late w i,
       status_of (ui w) i = sending →
       click_send_all env formatChallanMessage accepted provider late w = w)
  ∧ (∀ provider late w,
       send_all_btn_disabled (ui w) = false →
       credentials_missing env = false →
       ∀ i challan, extractedChallans (ui w) !! i = Some challan →
         ∃ more,
           requests_for i
             (trace (click_send_all env formatChallanMessage true provider late w))
           = requests_for i (trace w)
             ++ TemplateMessage (mobile challan) (TEMPLATE_NAME env) :: more)
  ∧ (∀ provider late w,
       let w' := click_send_all env formatChallanMessage false provider late w in
       ui w' = ui w ∧ posts (trace w') = posts (trace w))
  ∧ (∀ meanwhile accepted provider late w w2,
       extractedChallans (ui w2) = extractedChallans (ui w) →
       now w2 = now w → trace w2 = trace w →
       trace (sendAllMessages_among env formatChallanMessage meanwhile accepted
                provider late w2)
       = trace (sendAllMessages env formatChallanMessage accepted provider late w)).
Proof.
  split_and!.
  - intros a i. apply click_send_respects_guard.
  - intros a i w Hg. unfold click_send.
    destruct (extractedChallans (ui w) !! i); [|done].
    apply guarded_disabled in Hg. by rewrite Hg.
  - intros a i w challan Hi Hstatus Hcred. unfold click_send. rewrite Hi.
    assert (send_btn_disabled (status_of (ui w) i) = false) as ->.
    { by destruct Hstatus as [-> | ->]. }
    by apply sendWhatsAppMessage_requests.
  - intros accepted provider late w i Hs. unfold click_send_all.
    destruct (extractedChallans (ui w)); [done|].
    by rewrite (send_all_btn_disabled_sending _ i (status_of_sending _ _ Hs)).
  - intros provider late w Hen Hcred i challan Hi. unfold click_send_all.
    destruct (extractedChallans (ui w)) as [|c cs] eqn:E; [done|].
    rewrite Hen. rewrite <- E in Hi.
    by apply sendAllMessages_requests.
  - intros provider late w. cbn zeta. unfold click_send_all, sendAllMessages.
    destruct (extractedChallans (ui w)) as [|c cs]; [done|].
    destruct (send_all_btn_disabled (ui w)); [done|]. cbn [length Nat.eqb].
    destruct (credentials_missing env); cbn [negb alert confirm ui trace];
      (split; [done|]); rewrite posts_app; cbn; by rewrite app_nil_r.
  - intros meanwhile accepted provider late w w2.
    apply sendAllMessages_among_trace.
Qed.

Lemma send_button_guard_witness :
  click_send example_env example_format (accepting "wamid.B") 0 sent_world
  = sent_world
  ∧ ∃ more,
      requests_for 1
        (trace (click_send example_env example_format (accepting "wamid.B") 1
                  sent_world))
      = TemplateMessage "919800000002" "hello_world" :: more.
Proof.
  destruct (send_button_guard example_env example_format)
    as (_ & Hdisabled & Henabled & _).
  split.
  - apply Hdisabled. right; left; reflexivity.
  - exact (Henabled (accepting "wamid.B") 1 sent_world _ eq_refl
             (or_introl eq_refl) eq_refl).
Defined.

(** C9, as written, fails: with the identifier ["wamid.A"] set for item 0,
    a run of the batch over the same items, accepted by the provider with
    ["wamid.B"], replaces it. *)
Lemma resend_replaces_identifier :
  let operation := sendAllMessages example_env example_format true
                     (λ _, accepting "wamid.B") (λ _, 0) in
  messageIds (ui sent_world) !! 0 = Some (JStr "wamid.A")
  ∧ messageIds (ui (operation sent_world)) !! 0 = Some (JStr "wamid.B")
  ∧ ¬ keeps_identifiers operation.
Proof.
  intros operation. split_and!; [reflexivity|by vm_compute|].
  intros H. specialize (H sent_world 0 (JStr "wamid.A") eq_refl).
  vm_compute in H. discriminate H.
Qed.

(** C9, amended. An identifier that is set is kept by every pushed message,
    by the sends of other items, by a send of the same item that is rejected
    twice, by a click on the disabled button of the item, and by the rest of
    the batch loop once the loop has passed the item; a send of the same item
    changes it only to an identifier that the provider returned for that
    send; preparing a batch or resetting the form empties the mapping. *)
Theorem identifier_kept_until_resent
    (env : environment) (formatChallanMessage : ChallanData → string)
    (w : world) (index : nat) (id : json) :
  messageIds (ui w) !! index = Some id →
  (∀ parsed, messageIds (ui (update (onmessage parsed) w)) !! index = Some id)
  ∧ (∀ a mobile challanData j, j ≠ index →
       messageIds (ui (sendWhatsAppMessage env formatChallanMessage a mobile
                         challanData j w)) !! index = Some id)
  ∧ (∀ a mobile challanData,
       settles (to_template a) = Rejected → settles (to_text a) = Rejected →
       messageIds (ui (sendWhatsAppMessage env formatChallanMessage a mobile
                         challanData index w)) !! index = Some id)
  ∧ (∀ a, guarded (status_of (ui w) index) →
       messageIds (ui (click_send env formatChallanMessage a index w)) !! index
       = Some id)
  ∧ (∀ provider late n i rest, index < i →
       messageIds (ui (send_loop env formatChallanMessage provider late n i rest w))
         !! index = Some id)
  ∧ (∀ a mobile challanData id',
       messageIds (ui (sendWhatsAppMessage env formatChallanMessage a mobile
                         challanData index w)) !! index = Some id' →
       id' = id
       ∨ ∃ data, (settles (to_template a) = Resolved data
                  ∨ settles (to_text a) = Resolved data)
                 ∧ message_id data = Normal (Some id'))
  ∧ (∀ extracted, messageIds (handleFileUpload extracted (ui w)) = ∅
                  ∧ messageIds (handleReset (ui w)) = ∅).
Proof.
  intros Hid. split_and!.
  - intros parsed. cbn [update ui]. by rewrite onmessage_messageIds.
  - intros a mobile challanData j Hj.
    destruct (sendWhatsAppMessage_spec env formatChallanMessage a mobile challanData j w)
      as (_ & _ & [->|(d & id' & _ & _ & _ & ->)] & _); [done|].
    by rewrite lookup_insert_ne.
  - intros a mobile challanData Ht Hx.
    destruct (sendWhatsAppMessage_spec env formatChallanMessage a mobile challanData
                index w)
      as (_ & _ & [->|(d & id' & [Hr|Hr] & _)] & _); [done| |]; congruence.
  - intros a Hg. unfold click_send.
    destruct (extractedChallans (ui w) !! index); [|done].
    apply guarded_disabled in Hg. by rewrite Hg.
  - intros provider late n i rest Hlt. by apply send_loop_keeps_identifiers.
  - intros a mobile challanData id'.
    destruct (sendWhatsAppMessage_spec env formatChallanMessage a mobile challanData
                index w)
      as (_ & _ & [->|(d & id'' & Hr & Hm & _ & ->)] & _).
    + intros H. left. congruence.
    + rewrite lookup_insert_eq. intros [= <-]. right. by exists d.
  - done.
Qed.

Lemma identifier_kept_until_resent_witness :
  messageIds (ui (sendWhatsAppMessage example_env example_format
                    (accepting "wamid.B") "919800000002" [] 1 sent_world)) !! 0
  = Some (JStr "wamid.A")
  ∧ messageIds (ui (update (onmessage
        (Normal (JObj [("type", JStr "status_update");
                       ("messageId", JStr "wamid.A");
                       ("status", JStr "delivered")]))) sent_world)) !! 0
    = Some (JStr "wamid.A").
Proof.
  destruct (identifier_kept_until_resent example_env example_format sent_world 0
              (JStr "wamid.A") eq_refl) as (Hpush & Hother & _).
  split.
  - apply Hother. discriminate.
  - apply Hpush.
Defined.

(** * Further properties of the code *)

(** ** The server *)

Import Server.

Lemma Map_get_Map_set_ne (a b : string) v (m : Map) :
  a ≠ b → Map_get (str a) (Map_set (str b) v m) = Map_get (str a) m.
Proof.
  intros Hne. induction m as [|[k v'] rest IH]; simpl.
  - rewrite (proj2 (String.eqb_neq b a)); [done|congruence].
  - destruct (strict_eq k (str b)) eqn:Eb; simpl.
    + apply strict_eq_str_r in Eb. subst k. rewrite !strict_eq_str.
      by rewrite bool_decide_eq_false_2 by congruence.
    + destruct (strict_eq k (str a)); [done|apply IH].
Qed.

Lemma Map_get_record_all (writes : list (string * jsval)) (id : string) :
  Map_get (str id) (record_all writes Map_new)
  = default undefined (last_written id writes).
Proof.
  induction writes as [|w writes IH] using rev_ind; [done|].
  rewrite record_all_snoc, last_written_snoc. unfold recordStatus.
  case_decide as Hw.
  - subst id. apply Map_get_Map_set_eq.
  - rewrite Map_get_Map_set_ne by congruence. apply IH.
Qed.

(** X1. The verification handshake succeeds, echoing the challenge,
    exactly when the mode is ['subscribe'] and the token is the one in force;
    otherwise it is refused. The token in force is never empty (an empty
    configured value falls back to the default), so an empty or missing
    token is always refused. *)
Theorem webhook_verification (configured : option string)
    (mode token challenge : jsval) :
  let in_force := verify_token configured in
  (mode = str "subscribe" ∧ token = str in_force →
     webhook_get in_force mode token challenge = (200, challenge))
  ∧ (¬ (mode = str "subscribe" ∧ token = str in_force) →
       webhook_get in_force mode token challenge = (403, str "Forbidden"))
  ∧ (truthy token = false →
       webhook_get in_force mode token challenge = (403, str "Forbidden"))
  ∧ in_force ≠ "".
Proof.
  intros in_force.
  assert (in_force ≠ "") as Hne.
  { unfold in_force, verify_token. destruct configured as [t|]; [|done].
    destruct (truthy (str t)) eqn:E; [|done]. intros ->. discriminate E. }
  assert (¬ (mode = str "subscribe" ∧ token = str in_force) →
          webhook_get in_force mode token challenge = (403, str "Forbidden")) as Hno.
  { intros Hnot. unfold webhook_get.
    destruct (strict_eq mode (str "subscribe")) eqn:Em; [|done].
    destruct (strict_eq token (str in_force)) eqn:Et; [|done].
    apply strict_eq_str_r in Em, Et. destruct Hnot. done. }
  split_and!; [| exact Hno | | exact Hne].
  - intros [-> ->]. unfold webhook_get. by rewrite !strict_eq_str, !bool_decide_eq_true_2.
  - intros Hfalsy. apply Hno. intros [_ ->]. cbn in Hfalsy.
    apply negb_false_iff, String.eqb_eq in Hfalsy. done.
Qed.

Lemma webhook_verification_witness :
  webhook_get (verify_token (Some "")) (str "subscribe")
    (str "your_verify_token_here") (str "1158201444")
  = (200, str "1158201444")
  ∧ webhook_get (verify_token (Some "s3cret")) (str "subscribe") (str "guess")
      (str "1158201444")
    = (403, str "Forbidden")
  ∧ webhook_get (verify_token (Some "")) (str "subscribe") (str "") (str "1")
    = (403, str "Forbidden").
Proof.
  split_and!.
  - apply (webhook_verification (Some "")). by split.
  - apply (proj1 (proj2 (webhook_verification (Some "s3cret") _ _ _))).
    intros [_ [=]].
  - apply (proj1 (proj2 (proj2 (webhook_verification (Some "") _ _ _)))).
    reflexivity.
Defined.

(** X2. The status endpoint answers, for every identifier, the state last
    written for it when that state is truthy, and ['unknown'] when the
    identifier was never written or its last state is falsy (empty or
    missing): it never fails. *)
Theorem api_status_last_written (writes : list (string * jsval)) (messageId : string) :
  api_status (record_all writes Map_new) messageId
  = match last_written messageId writes with
    | Some status => if truthy status then status else str "unknown"
    | None => str "unknown"
    end.
Proof.
  unfold api_status. rewrite Map_get_record_all.
  by destruct (last_written messageId writes).
Qed.

(** *** Writes and their broadcasts *)

Lemma perform_app writes1 writes2 (m : Map) :
  perform (writes1 ++ writes2) m = perform writes2 (perform writes1 m).
Proof. unfold perform. by rewrite foldl_app. Qed.

Lemma pushes_app clients writes1 writes2 :
  pushes clients (writes1 ++ writes2) = pushes clients writes1 ++ pushes clients writes2.
Proof. unfold pushes. by rewrite flat_map_app. Qed.

Lemma performs_refl clients e : performs clients [] e e.
Proof. split; [done|]. by rewrite app_nil_r. Qed.

Lemma performs_trans clients w1 w2 e1 e2 e3 :
  performs clients w1 e1 e2 → performs clients w2 e2 e3 →
  performs clients (w1 ++ w2) e1 e3.
Proof.
  intros [S1 O1] [S2 O2]. split.
  - by rewrite S2, S1, perform_app.
  - by rewrite O2, O1, pushes_app, app_assoc.
Qed.

Lemma performing_ret {A} clients (a : A) : performing clients (ret a).
Proof. intros e. exists []. apply performs_refl. Qed.

Lemma performing_throw {A} clients : performing clients (@throw A).
Proof. intros e. exists []. apply performs_refl. Qed.

Lemma performing_eval {A} clients (c : completion A) : performing clients (eval c).
Proof. intros e. exists []. apply performs_refl. Qed.

Lemma performing_bind {A B} clients (c : stmt A) (k : A → stmt B) :
  performing clients c → (∀ a, performing clients (k a)) →
  performing clients (bind c k).
Proof.
  intros Hc Hk e. unfold bind. destruct (Hc e) as (w1 & H1).
  destruct (c e) as [[a|] e1]; [|by exists w1].
  destruct (Hk a e1) as (w2 & H2). exists (w1 ++ w2).
  by eapply performs_trans.
Qed.

Lemma performing_for_each clients (callback : json → stmt unit) items :
  (∀ item, performing clients (callback item)) →
  performing clients (for_each callback items).
Proof.
  intros Hcb. induction items as [|item items IH]; cbn [for_each].
  - apply performing_ret.
  - apply performing_bind; [apply Hcb|done].
Qed.

Lemma performing_forEach clients v (callback : json → stmt unit) :
  (∀ item, performing clients (callback item)) →
  performing clients (forEach v callback).
Proof.
  intros Hcb. destruct v as [[| | | |items|]|]; try apply performing_throw.
  by apply performing_for_each.
Qed.

Lemma performing_forEach_opt clients v (callback : json → stmt unit) :
  (∀ item, performing clients (callback item)) →
  performing clients (forEach_opt v callback).
Proof.
  intros Hcb. destruct v as [[| | | |items|]|];
    try apply performing_ret; by apply performing_forEach.
Qed.

Lemma performing_when clients v (body : stmt unit) :
  performing clients body → performing clients (when v body).
Proof. intros Hb. unfold when. destruct (truthy v); [done|apply performing_ret]. Qed.

Lemma performing_on_status clients status :
  performing clients (on_status clients status).
Proof.
  unfold on_status. apply performing_bind; [apply performing_eval|]. intros messageId.
  apply performing_bind; [apply performing_eval|]. intros statusType e.
  exists [(messageId, statusType)]. split; [done|]. cbn. by rewrite app_nil_r.
Qed.

Lemma performing_webhook_try clients body :
  performing clients (webhook_try clients body).
Proof.
  unfold webhook_try. apply performing_bind; [apply performing_eval|]. intros object.
  destruct (strict_eq _ _); [|apply performing_ret].
  apply performing_bind; [apply performing_eval|]. intros entry.
  apply performing_bind; [|intros; apply performing_ret].
  apply performing_forEach_opt. intros item. unfold on_entry.
  apply performing_bind; [apply performing_eval|]. intros changes.
  apply performing_forEach_opt. intros change. unfold on_change.
  apply performing_bind; [apply performing_eval|]. intros field.
  destruct (strict_eq _ _); [|apply performing_ret].
  apply performing_bind; [apply performing_eval|]. intros value.
  apply performing_bind; [apply performing_eval|]. intros statuses.
  apply performing_bind.
  { apply performing_when, performing_forEach, performing_on_status. }
  intros _. apply performing_bind; [apply performing_eval|]. intros messages.
  apply performing_when, performing_forEach. intros item'. apply performing_ret.
Qed.

Lemma webhook_post_performs clients body e :
  ∃ writes, performs clients writes e (webhook_post clients body e).2.
Proof.
  unfold webhook_post. destruct (performing_webhook_try clients body e) as (w & H).
  exists w. by destruct (webhook_try clients body e) as [[r|] e'].
Qed.

Lemma received_broadcast_count ws clients messageId status :
  received ws (broadcastStatusUpdate clients messageId status)
  = replicate (open_count ws clients) (StatusUpdate messageId status).
Proof.
  unfold broadcastStatusUpdate, open_count.
  induction clients as [|c clients IH]; [done|].
  cbn [flat_map List.filter]. rewrite received_app, IH.
  destruct (Nat.eqb_spec (readyState c) OPEN) as [Ho|Ho].
  - unfold received at 1. cbn. destruct (Nat.eqb (handle c) ws); cbn; done.
  - rewrite andb_false_r. done.
Qed.

Lemma received_pushes ws clients writes :
  received ws (pushes clients writes)
  = flat_map (λ w, replicate (open_count ws clients) (StatusUpdate w.1 w.2)) writes.
Proof.
  induction writes as [|w writes IH]; [done|].
  unfold pushes in *. cbn [flat_map]. by rewrite received_app, received_broadcast_count, IH.
Qed.

Lemma replay_app (m : Map) messages1 messages2 :
  replay m (messages1 ++ messages2) = replay (replay m messages1) messages2.
Proof. unfold replay. by rewrite foldl_app. Qed.

Lemma replay_writes (m : Map) (writes : list (jsval * jsval)) :
  replay m (flat_map (λ w, replicate 1 (StatusUpdate w.1 w.2)) writes)
  = perform writes m.
Proof.
  revert m. induction writes as [|w writes IH]; intros m; [done|].
  cbn. apply IH.
Qed.

(** X3. Whatever the body of the callback, and also when its processing
    ends in a fault, the store changes by a sequence of writes and the
    messages sent are the broadcasts of exactly these writes, in the same
    order: no write goes unannounced, nothing is announced that was not
    written, and each observer receives one message per write for each of
    its open memberships of [wss.clients]. *)
Theorem webhook_writes_are_pushed (clients : list ws_client) (body : jsval)
    (e : effects) :
  ∃ writes,
    store (webhook_post clients body e).2 = perform writes (store e)
    ∧ outbox (webhook_post clients body e).2 = outbox e ++ pushes clients writes
    ∧ ∀ ws, received ws (pushes clients writes)
            = flat_map (λ w, replicate (open_count ws clients)
                                 (StatusUpdate w.1 w.2)) writes.
Proof.
  destruct (webhook_post_performs clients body e) as (writes & Hs & Ho).
  exists writes. split_and!; [done|done|].
  intros ws. apply received_pushes.
Qed.

Lemma Map_set_has key key' value (m : Map) :
  Map_has key m = true → Map_has key (Map_set key' value m) = true.
Proof.
  induction m as [|[k v] rest IH]; [done|]. cbn.
  destruct (strict_eq k key') eqn:E; cbn.
  - done.
  - destruct (strict_eq k key); [done|]. cbn. apply IH.
Qed.

Lemma Map_set_length key value (m : Map) :
  length m ≤ length (Map_set key value m).
Proof.
  induction m as [|[k v] rest IH]; cbn; [lia|].
  destruct (strict_eq k key); cbn; lia.
Qed.

Lemma perform_has key writes (m : Map) :
  Map_has key m = true → Map_has key (perform writes m) = true.
Proof.
  revert m. induction writes as [|w writes IH]; intros m Hm; [done|].
  cbn. apply IH. by apply Map_set_has.
Qed.

Lemma perform_length writes (m : Map) : length m ≤ length (perform writes m).
Proof.
  revert m. induction writes as [|w writes IH]; intros m; [done|].
  cbn. etrans; [apply (Map_set_length w.1 w.2)|apply IH].
Qed.

Lemma step_store_performs ToPropertyKey s ev :
  ∃ writes, Server.messageStatuses (step ToPropertyKey s ev).1
            = perform writes (messageStatuses s)
    ∧ (step ToPropertyKey s ev).2
      = match ev with
        | Connection ws => on_connection ToPropertyKey (messageStatuses s) ws
        | WebhookPost _ => pushes (wss_clients s) writes
        | _ => []
        end.
Proof.
  destruct ev as [ws|ws|ws|body]; try (by exists []).
  cbn [step].
  destruct (webhook_post_performs (wss_clients s) body
              {| store := messageStatuses s; outbox := [] |}) as (writes & Hs & Ho).
  exists writes. destruct (webhook_post _ _ _) as [r e]. cbn in *. by rewrite Hs, Ho.
Qed.

(** X4. No event ever removes an entry from the store: a key that the
    store holds is still held after any run (callbacks of any shape,
    faulting or not, connections and disconnections), and the number of
    entries never decreases. *)
Theorem store_never_forgets (ToPropertyKey : jsval → string) (s : server)
    (evs : list event) (key : jsval) :
  Map_has key (messageStatuses s) = true →
  Map_has key (Server.messageStatuses (run ToPropertyKey s evs).1) = true
  ∧ length (messageStatuses s)
    ≤ length (Server.messageStatuses (run ToPropertyKey s evs).1).
Proof.
  revert s. induction evs as [|ev evs IH]; intros s Hkey; [done|].
  cbn [run]. destruct (step_store_performs ToPropertyKey s ev) as (writes & Hw & _).
  destruct (step ToPropertyKey s ev) as [s1 o1]. cbn in Hw.
  assert (Map_has key (messageStatuses s1) = true) as H1.
  { rewrite Hw. by apply perform_has. }
  destruct (IH s1 H1) as [Hhas Hlen].
  destruct (run ToPropertyKey s1 evs) as [s2 o2]. cbn in *.
  split; [done|]. etrans; [|exact Hlen]. rewrite Hw. apply perform_length.
Qed.

Lemma store_never_forgets_witness :
  let s := {| Server.messageStatuses := [(str "wamid.1", str "sent")]; wss_clients := [] |} in
  let evs := [ WebhookPost (envelope [notification ("wamid.2", str "sent")]);
               WebhookPost (Some (JObj [("object", JStr "whatsapp_business_account");
                                        ("entry", JStr "broken")]));
               Connection 1; Close 1 ] in
  Map_has (str "wamid.1") (Server.messageStatuses (run string_key s evs).1) = true.
Proof.
  intros s evs. apply (store_never_forgets string_key s evs (str "wamid.1")).
  reflexivity.
Defined.




Lemma Map_has_keys key (m : Map) :
  Map_has key m = existsb (λ k, strict_eq k key) m.*1.
Proof.
  unfold Map_has. induction m as [|[k v] rest IH]; [done|]. cbn. by rewrite IH.
Qed.

Lemma Map_has_record_all (writes : list (string * jsval)) (id : string) :
  Map_has (str id) (record_all writes Map_new) = true ↔ id ∈ written writes.
Proof.
  revert id. induction writes as [|w writes IH] using rev_ind; intros id.
  - unfold written. cbn. split; [done|set_solver].
  - rewrite record_all_snoc, written_snoc. unfold recordStatus.
    destruct (Map_has (str w.1) (record_all writes Map_new)) eqn:E.
    + assert (∀ k, Map_has k (Map_set (str w.1) w.2 (record_all writes Map_new))
                   = Map_has k (record_all writes Map_new)) as ->.
      { intros k. rewrite !Map_has_keys. by rewrite Map_set_keys_present. }
      rewrite IH. apply IH in E. set_solver.
    + assert (∀ k, Map_has k (Map_set (str w.1) w.2 (record_all writes Map_new))
                   = Map_has k (record_all writes Map_new) || strict_eq (str w.1) k)
        as ->.
      { intros k. rewrite !Map_has_keys.
        rewrite Map_set_keys_absent by done. rewrite existsb_app. cbn.
        by rewrite orb_false_r. }
      rewrite orb_true_iff, IH, strict_eq_str, bool_decide_eq_true. set_solver.
Qed.

(** X6. For writes whose identifiers are strings, the store holds exactly
    one entry per identifier written, however often each was written. *)
Theorem store_one_entry_per_identifier (writes : list (string * jsval)) :
  length (record_all writes Map_new) = size (written writes)
  ∧ NoDup (record_all writes Map_new).*1.
Proof.
  destruct (record_all_string_keyed writes Map_new Map_new_string_keyed)
    as (ks & Hk & Hnd).
  assert (list_to_set ks = written writes) as Hset.
  { apply set_eq. intros id. rewrite elem_of_list_to_set.
    rewrite <- (Map_has_str_elem id ks _ Hk). apply Map_has_record_all. }
  split.
  - rewrite <- Hset, size_list_to_set by done.
    rewrite <- (length_fmap fst), Hk. by rewrite length_fmap.
  - rewrite Hk. apply NoDup_fmap_2; [|done]. intros a b [=]. done.
Qed.

(** *** What an observer receives *)

Lemma open_count_app ws (l1 l2 : list ws_client) :
  open_count ws (l1 ++ l2) = open_count ws l1 + open_count ws l2.
Proof. unfold open_count. by rewrite List.filter_app, length_app. Qed.

Lemma open_count_set_readyState ws ws' state (clients : list ws_client) :
  ws' ≠ ws →
  open_count ws (map (set_readyState ws' state) clients) = open_count ws clients.
Proof.
  intros Hne.
  assert (∀ c, Nat.eqb (handle (set_readyState ws' state c)) ws
               && Nat.eqb (readyState (set_readyState ws' state c)) OPEN
             = Nat.eqb (handle c) ws && Nat.eqb (readyState c) OPEN) as Hsame.
  { intros c. unfold set_readyState.
    destruct (Nat.eqb_spec (handle c) ws') as [Hc|Hc]; [|done].
    cbn [handle readyState]. rewrite Hc.
    by rewrite (proj2 (Nat.eqb_neq ws' ws)). }
  unfold open_count. induction clients as [|c clients IH]; [done|].
  cbn [map List.filter]. rewrite Hsame.
  destruct (Nat.eqb (handle c) ws && Nat.eqb (readyState c) OPEN);
    cbn [length]; by rewrite IH.
Qed.

Lemma open_count_filter ws ws' (clients : list ws_client) :
  ws' ≠ ws →
  open_count ws (filter (λ c, handle c ≠ ws') clients) = open_count ws clients.
Proof.
  intros Hne. unfold open_count. induction clients as [|c clients IH]; [done|].
  destruct (decide (handle c = ws')) as [Hc|Hc].
  - rewrite filter_cons_False by (intros H; by apply H).
    cbn [List.filter]. rewrite Hc. rewrite (proj2 (Nat.eqb_neq ws' ws)) by done.
    cbn. apply IH.
  - rewrite filter_cons_True by done. cbn [List.filter].
    destruct (Nat.eqb (handle c) ws && Nat.eqb (readyState c) OPEN); cbn;
      by rewrite IH.
Qed.

Lemma step_replay ToPropertyKey s ev ws :
  open_count ws (wss_clients s) = 1 → ¬ concerns ws ev →
  messageStatuses (step ToPropertyKey s ev).1
  = replay (messageStatuses s) (received ws (step ToPropertyKey s ev).2)
  ∧ open_count ws (wss_clients (step ToPropertyKey s ev).1) = 1.
Proof.
  intros Hone Hev. destruct ev as [ws'|ws'|ws'|body].
  - assert (ws' ≠ ws) as Hne by (intros ->; apply Hev; by left).
    cbn [step fst snd messageStatuses wss_clients on_connection]. split.
    + unfold received. cbn. by rewrite (proj2 (Nat.eqb_neq ws' ws)).
    + rewrite open_count_app, Hone. unfold open_count. cbn.
      by rewrite (proj2 (Nat.eqb_neq ws' ws)).
  - assert (ws' ≠ ws) as Hne by (intros ->; apply Hev; right; by left).
    cbn [step fst snd messageStatuses wss_clients]. split; [done|].
    by rewrite open_count_set_readyState.
  - assert (ws' ≠ ws) as Hne by (intros ->; apply Hev; right; by right).
    cbn [step fst snd messageStatuses wss_clients]. split; [done|].
    by rewrite open_count_filter.
  - destruct (step_store_performs ToPropertyKey s (WebhookPost body))
      as (writes & Hs & Ho).
    rewrite step_WebhookPost_clients. split; [|done].
    rewrite Hs, Ho, received_pushes, Hone. by rewrite replay_writes.
Qed.

(** X7. An observer that is in [wss.clients] once, with its channel open,
    and stays so, is told every change of the store: replaying the status
    updates it receives during a run, in order, onto the store of the start
    gives the store of the end, whatever callbacks arrived and whoever else
    connected or left. *)
Theorem observer_replay (ToPropertyKey : jsval → string) (s : server)
    (evs : list event) (ws : nat) :
  open_count ws (wss_clients s) = 1 →
  Forall (λ ev, ¬ concerns ws ev) evs →
  messageStatuses (run ToPropertyKey s evs).1
  = replay (messageStatuses s) (received ws (run ToPropertyKey s evs).2).
Proof.
  intros Hone Hall. revert s Hone.
  induction Hall as [|ev evs Hev _ IH]; intros s Hone; [done|].
  cbn [run]. destruct (step_replay ToPropertyKey s ev ws Hone Hev) as [Hs H1].
  destruct (step ToPropertyKey s ev) as [s1 o1]. cbn [fst snd] in Hs, H1.
  specialize (IH s1 H1). destruct (run ToPropertyKey s1 evs) as [s2 o2].
  cbn [fst snd] in *. by rewrite received_app, replay_app, <- Hs.
Qed.

Lemma observer_replay_witness :
  let s := {| messageStatuses := [(str "wamid.1", str "sent")];
              wss_clients := [ {| handle := 1; readyState := OPEN |} ] |} in
  let evs := [ WebhookPost (envelope [notification ("wamid.1", str "delivered");
                                      notification ("wamid.2", str "sent")]);
               Connection 2;
               WebhookPost (envelope [notification ("wamid.2", str "read")]) ] in
  replay (messageStatuses s) (received 1 (run string_key s evs).2)
  = [(str "wamid.1", str "delivered"); (str "wamid.2", str "read")].
Proof.
  intros s evs. rewrite <- (observer_replay string_key s evs 1).
  - reflexivity.
  - reflexivity.
  - repeat constructor; intros [H|[H|H]]; discriminate H.
Defined.

Lemma not_member_not_open (clients : list ws_client) ws :
  ws ∉ handle <$> clients → ¬ open_observer clients ws.
Proof.
  intros Hnot (c & Hc & Hh & _). apply Hnot. rewrite <- Hh.
  by apply list_elem_of_fmap_2.
Qed.

Lemma run_received_none ToPropertyKey s evs ws :
  ¬ open_observer (wss_clients s) ws →
  Forall (λ ev, ev ≠ Connection ws) evs →
  received ws (run ToPropertyKey s evs).2 = []
  ∧ ¬ open_observer (wss_clients (run ToPropertyKey s evs).1) ws.
Proof.
  intros Hclosed Hall. revert s Hclosed.
  induction Hall as [|ev evs Hev _ IH]; intros s Hclosed; [done|].
  cbn [run]. pose proof (step_stays_closed ToPropertyKey s ws ev Hev Hclosed) as H1.
  assert (received ws (step ToPropertyKey s ev).2 = []) as Hnone.
  { destruct ev as [ws'|ws'|ws'|body]; try done.
    - cbn. unfold received. cbn.
      rewrite (proj2 (Nat.eqb_neq ws' ws)); [done|congruence].
    - apply received_none. intros m Hin.
      pose proof (step_WebhookPost_pushes ToPropertyKey s body) as Hp.
      rewrite Forall_forall in Hp. by destruct (Hp _ Hin) as [Ho _]. }
  destruct (step ToPropertyKey s ev) as [s1 o1]. cbn [fst snd] in *.
  destruct (IH s1 H1) as [Hr Hc]. destruct (run ToPropertyKey s1 evs) as [s2 o2].
  cbn [fst snd] in *. by rewrite received_app, Hnone, Hr.
Qed.

Lemma run_received_updates ToPropertyKey s evs ws :
  Forall (λ ev, ev ≠ Connection ws) evs →
  Forall (λ m, ∃ id st, m = StatusUpdate id st)
    (received ws (run ToPropertyKey s evs).2).
Proof.
  intros Hall. revert s. induction Hall as [|ev evs Hev _ IH]; intros s; [constructor|].
  cbn [run].
  assert (Forall (λ m, ∃ id st, m = StatusUpdate id st)
            (received ws (step ToPropertyKey s ev).2)) as Hstep.
  { destruct ev as [ws'|ws'|ws'|body]; try constructor.
    - cbn. unfold received. cbn.
      rewrite (proj2 (Nat.eqb_neq ws' ws)); [constructor|congruence].
    - apply Forall_forall. intros m Hm.
      apply list_elem_of_omap in Hm as ([ws' m'] & Hin & Hm).
      pose proof (step_WebhookPost_pushes ToPropertyKey s body) as Hp.
      rewrite Forall_forall in Hp. destruct (Hp _ Hin) as [_ Hupd].
      cbn in Hm. destruct (Nat.eqb ws' ws); [|done]. injection Hm as <-. exact Hupd. }
  specialize (IH (step ToPropertyKey s ev).1).
  destruct (step ToPropertyKey s ev) as [s1 o1]. cbn [fst snd] in *.
  destruct (run ToPropertyKey s1 evs) as [s2 o2]. cbn [fst snd] in *.
  rewrite received_app. by apply Forall_app.
Qed.

(** X8. An observer that was not connected receives nothing until it
    connects; the first message it then receives is the snapshot of the
    store as it is at that moment; and whatever follows, until it connects
    again, are status updates. *)
Theorem snapshot_comes_first (ToPropertyKey : jsval → string) (s : server)
    (before after : list event) (ws : nat) :
  ws ∉ handle <$> wss_clients s →
  Forall (λ ev, ev ≠ Connection ws) before →
  Forall (λ ev, ev ≠ Connection ws) after →
  received ws (run ToPropertyKey s before).2 = []
  ∧ ∃ updates,
      received ws (run ToPropertyKey s (before ++ Connection ws :: after)).2
      = Initial (api_statuses ToPropertyKey
                   (messageStatuses (run ToPropertyKey s before).1)) :: updates
      ∧ Forall (λ m, ∃ id st, m = StatusUpdate id st) updates.
Proof.
  intros Hfresh Hbefore Hafter.
  destruct (run_received_none ToPropertyKey s before ws
              (not_member_not_open _ _ Hfresh) Hbefore) as [Hnone _].
  split; [done|].
  rewrite run_app. destruct (run ToPropertyKey s before) as [s1 o1].
  cbn [fst snd] in *. cbn [run step].
  pose proof (run_received_updates ToPropertyKey
                {| messageStatuses := messageStatuses s1;
                   wss_clients := wss_clients s1
                     ++ [{| handle := ws; readyState := OPEN |}] |} after ws Hafter)
    as Hupd.
  destruct (run ToPropertyKey _ after) as [s2 o2]. cbn [fst snd] in *.
  exists (received ws o2). split; [|done].
  rewrite !received_app, Hnone. unfold on_connection, received at 1. cbn.
  by rewrite Nat.eqb_refl.
Qed.

Lemma snapshot_comes_first_witness :
  ∃ updates,
    received 2
      (run string_key initial_server
         [ Connection 1;
           WebhookPost (envelope [notification ("wamid.1", str "sent")]);
           Connection 2;
           WebhookPost (envelope [notification ("wamid.1", str "read")]) ]).2
    = Initial {[ "wamid.1" := JStr "sent" ]} :: updates
    ∧ updates = [StatusUpdate (str "wamid.1") (str "read")].
Proof.
  destruct (snapshot_comes_first string_key initial_server
              [ Connection 1;
                WebhookPost (envelope [notification ("wamid.1", str "sent")]) ]
              [ WebhookPost (envelope [notification ("wamid.1", str "read")]) ] 2)
    as (_ & updates & Hr & _).
  - cbn. apply not_elem_of_nil.
  - repeat constructor; discriminate.
  - repeat constructor; discriminate.
  - exists updates. cbn [app] in Hr. split.
    + rewrite Hr. reflexivity.
    + assert (received 2
                (run string_key initial_server
                   [ Connection 1;
                     WebhookPost (envelope [notification ("wamid.1", str "sent")]);
                     Connection 2;
                     WebhookPost (envelope [notification ("wamid.1", str "read")]) ]).2
              = Initial (api_statuses string_key
                           [(str "wamid.1", str "sent")])
                :: [StatusUpdate (str "wamid.1") (str "read")]) as Hc by reflexivity.
      rewrite Hc in Hr. by injection Hr as <-.
Defined.

(** ** The client: from the file to the batch *)

Import Client.

Ltac bool_to_prop H :=
  repeat first [ rewrite orb_true_iff in H | rewrite andb_true_iff in H
               | rewrite Nat.eqb_eq in H | rewrite Nat.leb_le in H ].

Lemma is_digit_range c : is_digit c = true ↔ 48 ≤ code c ≤ 57.
Proof. unfold is_digit. rewrite andb_true_iff, !Nat.leb_le. done. Qed.

Lemma not_digit c : ¬ (48 ≤ code c ≤ 57) → is_digit c = false.
Proof.
  intros H. destruct (is_digit c) eqn:E; [|done]. by apply is_digit_range in E.
Qed.

Lemma white_space_1_not_digit c : white_space_1 c = true → is_digit c = false.
Proof.
  unfold white_space_1. intros H. bool_to_prop H. apply not_digit. lia.
Qed.

Lemma white_space_2_not_digit c d :
  white_space_2 c d = true → is_digit c = false ∧ is_digit d = false.
Proof.
  unfold white_space_2. intros H. bool_to_prop H. split; apply not_digit; lia.
Qed.

Lemma white_space_3_not_digit c d e :
  white_space_3 c d e = true →
  is_digit c = false ∧ is_digit d = false ∧ is_digit e = false.
Proof.
  unfold white_space_3. intros H. bool_to_prop H.
  split_and!; apply not_digit; lia.
Qed.

(** [trim] removes no digit. *)
Lemma remove_non_digits_trimStart s :
  remove_non_digits (trimStart s) = remove_non_digits s.
Proof.
  remember (String.length s) as n eqn:Hn. revert s Hn.
  induction (lt_wf n) as [n _ IH]. intros s ->.
  destruct s as [|c rest]; [done|]. cbn [trimStart].
  destruct (white_space_1 c) eqn:E1.
  { rewrite (IH (String.length rest)); [|cbn; lia|done].
    cbn [remove_non_digits]. by rewrite (white_space_1_not_digit _ E1). }
  destruct rest as [|d rest1]; [done|].
  destruct (white_space_2 c d) eqn:E2.
  { rewrite (IH (String.length rest1)); [|cbn; lia|done].
    destruct (white_space_2_not_digit _ _ E2) as [Hc Hd].
    cbn [remove_non_digits]. by rewrite Hc, Hd. }
  destruct rest1 as [|e rest2]; [done|].
  destruct (white_space_3 c d e) eqn:E3; [|done].
  rewrite (IH (String.length rest2)); [|cbn; lia|done].
  destruct (white_space_3_not_digit _ _ _ E3) as (Hc & Hd & He).
  cbn [remove_non_digits]. by rewrite Hc, Hd, He.
Qed.

Lemma remove_non_digits_trimEnd s :
  remove_non_digits (trimEnd s) = remove_non_digits s.
Proof.
  induction s as [|c rest IH]; [done|]. cbn [trimEnd].
  destruct (String.eqb_spec (trimStart (String c rest)) EmptyString) as [Hws|_].
  - by rewrite <- (remove_non_digits_trimStart (String c rest)), Hws.
  - cbn [remove_non_digits]. by rewrite IH.
Qed.

Lemma remove_non_digits_trim s : remove_non_digits (trim s) = remove_non_digits s.
Proof.
  unfold trim. by rewrite remove_non_digits_trimEnd, remove_non_digits_trimStart.
Qed.

Lemma all_digits_remove_non_digits s : all_digits (remove_non_digits s) = true.
Proof.
  induction s as [|c rest IH]; [done|]. cbn [remove_non_digits].
  destruct (is_digit c) eqn:E; [|done]. cbn [all_digits]. by rewrite E, IH.
Qed.

Lemma remove_non_digits_all_digits s :
  all_digits s = true → remove_non_digits s = s.
Proof.
  induction s as [|c rest IH]; [done|]. cbn [all_digits remove_non_digits].
  intros [Hc Hrest]%andb_true_iff. by rewrite Hc, IH.
Qed.

Lemma startsWith_plus s :
  startsWith s "+" = true ↔ ∃ rest, s = String "+" rest.
Proof.
  unfold startsWith. destruct s as [|c rest]; cbn [String.prefix].
  - split; [done|by intros [? ?]].
  - destruct (ascii_dec "+" c) as [<-|Hne].
    + split; [by eexists|]. by destruct rest.
    + split; [done|]. intros [? [= -> _]]. done.
Qed.

Lemma all_digits_not_plus s : all_digits s = true → startsWith s "+" = false.
Proof.
  intros Hd. destruct (startsWith s "+") eqn:E; [|done].
  apply startsWith_plus in E as [rest ->]. done.
Qed.

(** The destination depends on the cell only through its digits and
    through whether a plus sign leads it; the third prefix, ["+91"], is never
    used. *)
Lemma extract_row_eq ToString row :
  extract_row ToString row
  = match own_property "Violator Contact" row with
    | None => None
    | Some contact =>
        if truthy (Some contact) then
          let digits := remove_non_digits (ToString contact) in
          if startsWith (trim (ToString contact)) "+" then
            if Nat.leb 9 (String.length digits)
            then Some {| mobile := "+" +:+ digits; data := row |} else None
          else if Nat.eqb (String.length digits) 10
            then Some {| mobile := "91" +:+ digits; data := row |}
          else if Nat.ltb 10 (String.length digits)
            then Some {| mobile := "+" +:+ digits; data := row |}
          else None
        else None
    end.
Proof.
  unfold extract_row. destruct (own_property _ row) as [contact|]; [|done].
  destruct (truthy (Some contact)); [|done]. cbn zeta.
  destruct (startsWith (trim (ToString contact)) "+") eqn:Hplus.
  - pose proof Hplus as [rest Hrest]%startsWith_plus.
    assert (remove_non_digits (slice (trim (ToString contact)) 1)
            = remove_non_digits (ToString contact)) as ->.
    { rewrite <- (remove_non_digits_trim (ToString contact)), Hrest. reflexivity. }
    set (digits := remove_non_digits (ToString contact)).
    change ("+" +:+ digits) with (String "+" digits).
    cbn [String.length].
    rewrite (proj2 (startsWith_plus (String "+" digits))) by (by eexists).
    cbn [negb andb]. change (Nat.leb 10 (S (String.length digits)))
      with (Nat.leb 9 (String.length digits)). done.
  - rewrite remove_non_digits_trim.
    set (digits := remove_non_digits (ToString contact)).
    rewrite (all_digits_not_plus digits) by apply all_digits_remove_non_digits.
    cbn [negb andb].
    destruct (Nat.eqb_spec (String.length digits) 10) as [Hten|Hten].
    { by rewrite Hten. }
    destruct (Nat.ltb_spec 10 (String.length digits)) as [Hlong|Hshort].
    { by rewrite (proj2 (Nat.leb_le 10 _)) by lia. }
    by rewrite (proj2 (Nat.leb_gt 10 _)) by lia.
Qed.

(** X9. A row gives a challan exactly when its contact cell is truthy and
    holds enough digits: nine after a leading plus sign, ten otherwise. The
    destination is then made of the digits of the cell, in their order,
    after a plus sign when the cell had one or holds more than ten digits,
    and after 91 (without plus sign) when it holds exactly ten; nothing else
    of the cell matters, and the row is kept as it is. *)
Theorem extracted_mobile_shape (ToString : json → string) (row : ChallanData)
    (challan : ExtractedChallan) :
  extract_row ToString row = Some challan ↔
  ∃ contact,
    own_property "Violator Contact" row = Some contact
    ∧ truthy (Some contact) = true
    ∧ data challan = row
    ∧ let digits := remove_non_digits (ToString contact) in
      all_digits digits = true
      ∧ if startsWith (trim (ToString contact)) "+"
        then 9 ≤ String.length digits ∧ mobile challan = "+" +:+ digits
        else (String.length digits = 10 ∧ mobile challan = "91" +:+ digits)
             ∨ (10 < String.length digits ∧ mobile challan = "+" +:+ digits).
Proof.
  rewrite extract_row_eq.
  destruct (own_property "Violator Contact" row) as [contact|];
    [|split; [done|by intros (? & ? & _)]].
  destruct (truthy (Some contact)) eqn:Htruthy;
    [|split; [done|intros (? & [= <-] & ? & _); congruence]].
  cbn zeta. set (digits := remove_non_digits (ToString contact)).
  pose proof (all_digits_remove_non_digits (ToString contact)) as Hdigits.
  fold digits in Hdigits.
  destruct (startsWith (trim (ToString contact)) "+") eqn:Hplus.
  - destruct (Nat.leb_spec 9 (String.length digits)) as [Hlen|Hlen].
    + split.
      * intros [= <-]. exists contact. rewrite Hplus. by split_and!.
      * intros (c & [= <-] & _ & Hdata & _ & Hshape).
        rewrite Hplus in Hshape. fold digits in Hshape.
        destruct Hshape as [_ Hmobile]. destruct challan as [m d].
        cbn in Hdata, Hmobile. by subst.
    + split; [done|].
      intros (c & [= <-] & _ & _ & _ & Hshape).
      rewrite Hplus in Hshape. fold digits in Hshape.
      destruct Hshape as [Hnine _]. lia.
  - destruct (Nat.eqb_spec (String.length digits) 10) as [Hten|Hten].
    { split.
      - intros [= <-]. exists contact. rewrite Hplus. split_and!; try done. by left.
      - intros (c & [= <-] & _ & Hdata & _ & Hshape).
        rewrite Hplus in Hshape. fold digits in Hshape.
        destruct Hshape as [[_ Hmobile]|[Hlong _]]; [|lia].
        destruct challan as [m d]. cbn in Hdata, Hmobile. by subst. }
    destruct (Nat.ltb_spec 10 (String.length digits)) as [Hlong|Hshort].
    { split.
      - intros [= <-]. exists contact. rewrite Hplus. split_and!; try done. by right.
      - intros (c & [= <-] & _ & Hdata & _ & Hshape).
        rewrite Hplus in Hshape. fold digits in Hshape.
        destruct Hshape as [[Heq _]|[_ Hmobile]]; [lia|].
        destruct challan as [m d]. cbn in Hdata, Hmobile. by subst. }
    split; [done|].
    intros (c & [= <-] & _ & _ & _ & Hshape).
    rewrite Hplus in Hshape. fold digits in Hshape.
    destruct Hshape as [[Heq _]|[Hlt _]]; lia.
Qed.







Lemma indexed_app {A} (o1 o2 : list (string * A)) :
  indexed (o1 ++ o2) = indexed o1 ++ indexed o2.
Proof. unfold indexed. apply omap_app. Qed.

Lemma named_app {A} (o1 o2 : list (string * A)) :
  named (o1 ++ o2) = named o1 ++ named o2.
Proof. unfold named. apply List.filter_app. Qed.



Lemma trimStart_digit c rest : is_digit c = true → trimStart (String c rest) = String c rest.
Proof.
  intros Hc%is_digit_range. cbn [trimStart].
  assert (white_space_1 c = false) as ->.
  { destruct (white_space_1 c) eqn:E; [|done].
    unfold white_space_1 in E. bool_to_prop E. lia. }
  destruct rest as [|d rest1]; [done|].
  assert (white_space_2 c d = false) as ->.
  { destruct (white_space_2 c d) eqn:E; [|done].
    unfold white_space_2 in E. bool_to_prop E. lia. }
  destruct rest1 as [|e rest2]; [done|].
  assert (white_space_3 c d e = false) as ->; [|done].
  destruct (white_space_3 c d e) eqn:E; [|done].
  unfold white_space_3 in E. bool_to_prop E. lia.
Qed.

Lemma trimEnd_all_digits s : all_digits s = true → trimEnd s = s.
Proof.
  induction s as [|c rest IH]; [done|]. cbn [all_digits].
  intros [Hc Hrest]%andb_true_iff. cbn [trimEnd].
  rewrite (trimStart_digit c rest Hc). cbn. by rewrite IH.
Qed.

Lemma trim_all_digits s : all_digits s = true → trim s = s.
Proof.
  intros Hs. unfold trim.
  assert (trimStart s = s) as ->; [|by apply trimEnd_all_digits].
  destruct s as [|c rest]; [done|]. cbn in Hs.
  apply andb_true_iff in Hs as [Hc _]. by apply trimStart_digit.
Qed.

Lemma trim_plus_digits s :
  all_digits s = true → trim (String "+" s) = String "+" s.
Proof.
  intros Hs. unfold trim.
  assert (trimStart (String "+" s) = String "+" s) as ->.
  { destruct s as [|d [|e rest]]; reflexivity. }
  cbn [trimEnd].
  assert (trimStart (String "+" s) = String "+" s) as ->.
  { destruct s as [|d [|e rest]]; reflexivity. }
  cbn. by rewrite trimEnd_all_digits.
Qed.

(** X11. The destination is not a canonical form of the number. For ten
    digits [ds] in a text cell: the cell [ds] gives the destination [91ds],
    the cell [91ds] gives [+91ds], the cell [+91ds] gives [+91ds], and the
    cell [+ds] gives [+ds], with no country code. *)
Theorem destination_depends_on_notation (ToString : json → string)
    (ds : string) (rest : ChallanData) :
  (∀ s, ToString (JStr s) = s) →
  all_digits ds = true → String.length ds = 10 →
  let row cell := ("Violator Contact", JStr cell) :: rest in
  mobile <$> extract_row ToString (row ds) = Some ("91" +:+ ds)
  ∧ mobile <$> extract_row ToString (row ("91" +:+ ds)) = Some ("+91" +:+ ds)
  ∧ mobile <$> extract_row ToString (row ("+91" +:+ ds)) = Some ("+91" +:+ ds)
  ∧ mobile <$> extract_row ToString (row ("+" +:+ ds)) = Some ("+" +:+ ds).
Proof.
  intros HString Hds Hlen row.
  assert (all_digits ("91" +:+ ds) = true) as Hds' by (cbn; exact Hds).
  assert (∀ cell, cell ≠ EmptyString →
            own_property "Violator Contact" (row cell) = Some (JStr cell)
            ∧ truthy (Some (JStr cell)) = true) as Hcell.
  { intros cell Hne. split; [done|]. cbn.
    by destruct (String.eqb_spec cell EmptyString). }
  assert (ds ≠ EmptyString) as Hne by (intros ->; done).
  rewrite !extract_row_eq. split_and!.
  - destruct (Hcell ds Hne) as [-> ->]. rewrite HString. cbn zeta.
    rewrite (trim_all_digits _ Hds), (all_digits_not_plus _ Hds).
    rewrite (remove_non_digits_all_digits _ Hds), Hlen. done.
  - destruct (Hcell ("91" +:+ ds)) as [-> ->]; [done|]. rewrite HString. cbn zeta.
    rewrite (trim_all_digits _ Hds'), (all_digits_not_plus _ Hds').
    rewrite (remove_non_digits_all_digits _ Hds').
    change (String.length ("91" +:+ ds)) with (S (S (String.length ds))).
    rewrite Hlen. done.
  - destruct (Hcell ("+91" +:+ ds)) as [-> ->]; [done|]. rewrite HString. cbn zeta.
    change ("+91" +:+ ds) with (String "+" ("91" +:+ ds)).
    rewrite (trim_plus_digits _ Hds').
    rewrite (proj2 (startsWith_plus (String "+" ("91" +:+ ds)))) by (by eexists).
    change (remove_non_digits (String "+" ("91" +:+ ds)))
      with (remove_non_digits ("91" +:+ ds)).
    rewrite (remove_non_digits_all_digits _ Hds').
    change (String.length ("91" +:+ ds)) with (S (S (String.length ds))).
    rewrite Hlen. done.
  - destruct (Hcell ("+" +:+ ds)) as [-> ->]; [done|]. rewrite HString. cbn zeta.
    change ("+" +:+ ds) with (String "+" ds).
    rewrite (trim_plus_digits _ Hds).
    rewrite (proj2 (startsWith_plus (String "+" ds))) by (by eexists).
    change (remove_non_digits (String "+" ds)) with (remove_non_digits ds).
    rewrite (remove_non_digits_all_digits _ Hds), Hlen. done.
Qed.

Lemma destination_depends_on_notation_witness :
  let ToString := λ v, match v with JStr s => s | _ => EmptyString end in
  let row cell := [("Violator Contact", JStr cell)] in
  mobile <$> extract_row ToString (row "9876543210") = Some "919876543210"
  ∧ mobile <$> extract_row ToString (row "919876543210") = Some "+919876543210"
  ∧ mobile <$> extract_row ToString (row "+919876543210") = Some "+919876543210"
  ∧ mobile <$> extract_row ToString (row "+9876543210") = Some "+9876543210".
Proof.
  intros ToString row.
  exact (destination_depends_on_notation ToString "9876543210" []
           (λ s, eq_refl) eq_refl eq_refl).
Defined.

(** *** The extension of the file name *)

Lemma lastIndexOf_from_absent s c i :
  occurs c s = false → lastIndexOf_from s c i = (-1)%Z.
Proof.
  revert i. induction s as [|a rest IH]; intros i; [done|].
  cbn [occurs lastIndexOf_from]. intros [Ha Hrest]%orb_false_iff.
  by rewrite (IH _ Hrest), Ha.
Qed.

Lemma lastIndexOf_from_last stem ext c i :
  (0 ≤ i)%Z → occurs c ext = false →
  lastIndexOf_from (stem +:+ String c ext) c i
  = (i + Z.of_nat (String.length stem))%Z.
Proof.
  revert i. induction stem as [|a stem IH]; intros i Hi Hext.
  - change (EmptyString +:+ String c ext) with (String c ext).
    cbn [lastIndexOf_from String.length].
    rewrite (lastIndexOf_from_absent _ _ _ Hext), Ascii.eqb_refl. cbn. lia.
  - change (String a stem +:+ String c ext)
      with (String a (stem +:+ String c ext)).
    cbn [lastIndexOf_from String.length].
    rewrite IH by (lia || done).
    destruct (Z.leb_spec 0 (i + 1 + Z.of_nat (String.length stem))); lia.
Qed.

Lemma split_last c s :
  occurs c s = true →
  ∃ stem ext, s = stem +:+ String c ext ∧ occurs c ext = false.
Proof.
  induction s as [|a rest IH]; [done|]. cbn [occurs].
  destruct (occurs c rest) eqn:Hrest.
  - intros _. destruct (IH eq_refl) as (stem & ext & -> & Hext).
    by exists (String a stem), ext.
  - rewrite orb_false_r. intros ->%Ascii.eqb_eq. by exists EmptyString, rest.
Qed.

Lemma slice_app stem s : slice (stem +:+ s) (String.length stem) = s.
Proof. induction stem as [|a stem IH]; [by destruct s|exact IH]. Qed.

Lemma occurs_dot_toLowerCase s :
  occurs "." (toLowerCase s) = occurs "." s.
Proof.
  induction s as [|c rest IH]; [done|]. cbn [toLowerCase occurs]. rewrite IH.
  f_equal. by destruct c as [[] [] [] [] [] [] [] []].
Qed.

Lemma fileExtension_dot stem ext :
  occurs "." ext = false →
  fileExtension (stem +:+ "." +:+ ext) = "." +:+ toLowerCase ext.
Proof.
  intros Hext. unfold fileExtension, lastIndexOf, substring.
  change ("." +:+ ext) with (String "." ext).
  rewrite lastIndexOf_from_last by done.
  replace (Z.to_nat (Z.max 0 (0 + Z.of_nat (String.length stem))))
    with (String.length stem) by lia.
  by rewrite slice_app.
Qed.

Lemma fileExtension_no_dot name :
  occurs "." name = false → fileExtension name = toLowerCase name.
Proof.
  intros Hno. unfold fileExtension, lastIndexOf, substring.
  rewrite lastIndexOf_from_absent by done. by destruct name.
Qed.

Lemma valid_file_elem name :
  valid_file name = true ↔ fileExtension name ∈ validExtensions.
Proof.
  unfold valid_file. rewrite existsb_exists. split.
  - intros (x & Hin%list_elem_of_In & ->%String.eqb_eq). done.
  - intros Hin. exists (fileExtension name). split.
    + by apply list_elem_of_In.
    + apply String.eqb_refl.
Qed.

(** X12. A file name is accepted exactly when what follows its last dot
    is xlsx, xls, xlsm or csv, in any mix of upper and lower case. Only the
    part after the last dot counts, and a name without a dot is refused,
    whatever it is. *)
Theorem extension_check (name : string) :
  valid_file name = true ↔
  ∃ stem ext,
    name = stem +:+ "." +:+ ext
    ∧ toLowerCase ext ∈ ["xlsx"; "xls"; "xlsm"; "csv"].
Proof.
  rewrite valid_file_elem. unfold validExtensions. split.
  - intros Hin. destruct (occurs "." name) eqn:Hdot.
    + destruct (split_last _ _ Hdot) as (stem & ext & -> & Hext).
      exists stem, ext. split; [done|].
      change (String "." ext) with ("." +:+ ext) in Hin.
      rewrite fileExtension_dot in Hin by done.
      change ("." +:+ toLowerCase ext) with (String "." (toLowerCase ext)) in Hin.
      rewrite !elem_of_cons, elem_of_nil in Hin. rewrite !elem_of_cons.
      destruct Hin as [[= ->]|[[= ->]|[[= ->]|[[= ->]|[]]]]]; auto.
    + rewrite fileExtension_no_dot in Hin by done.
      rewrite <- occurs_dot_toLowerCase in Hdot.
      rewrite !elem_of_cons, elem_of_nil in Hin.
      destruct Hin as [H|[H|[H|[H|[]]]]]; rewrite H in Hdot; discriminate Hdot.
  - intros (stem & ext & -> & Hin).
    assert (occurs "." ext = false) as Hext.
    { rewrite <- occurs_dot_toLowerCase.
      rewrite !elem_of_cons, elem_of_nil in Hin.
      by destruct Hin as [->|[->|[->|[->|[]]]]]. }
    rewrite fileExtension_dot by done.
    change ("." +:+ toLowerCase ext) with (String "." (toLowerCase ext)).
    rewrite !elem_of_cons, elem_of_nil in Hin. rewrite !elem_of_cons.
    destruct Hin as [->|[->|[->|[->|[]]]]]; auto.
Qed.

(** ** The client: pushes and the items they reach *)

Lemma onmessage_cases parsed (s : state) :
  onmessage parsed s = s
  ∨ ∃ index id status,
      messageIds s !! index = Some id
      ∧ onmessage parsed s
        = setMessageStatuses (λ prev, <[index := status]> prev) s.
Proof.
  unfold onmessage, onmessage_try.
  destruct parsed as [data|]; [|by left].
  destruct (get (Some data) "type") as [type|]; [|by left].
  destruct (strict_eq type (str "status_update")).
  - destruct (get (Some data) "messageId") as [messageId|]; [|by left].
    destruct (get (Some data) "status") as [status|]; [|by left].
    destruct (find_index _ _) as [index|] eqn:E; [|by left].
    apply find_index_Some in E as (id & Hid & _).
    right. by exists index, id, status.
  - left. by destruct (strict_eq type (str "initial")).
Qed.

Lemma onmessage_no_identifiers parsed (s : state) :
  messageIds s = ∅ → onmessage parsed s = s.
Proof.
  intros Hids. destruct (onmessage_cases parsed s)
    as [->|(index & id & status & Hid & _)]; [done|].
  by rewrite Hids in Hid.
Qed.

(** X13. A status pushed by the server changes only items for which an
    identifier is recorded: whatever messages arrive, in whatever number, an
    item without identifier keeps its status, and no identifier is added or
    changed. *)
Theorem untracked_items_ignore_pushes (messages : list (completion json))
    (s : state) (index : nat) :
  messageIds s !! index = None →
  let s' := foldl (λ s parsed, onmessage parsed s) s messages in
  messageStatuses s' !! index = messageStatuses s !! index
  ∧ messageIds s' = messageIds s
  ∧ extractedChallans s' = extractedChallans s.
Proof.
  intros Hnone s'. subst s'. revert s Hnone.
  induction messages as [|parsed messages IH]; intros s Hnone; [done|].
  cbn [foldl].
  destruct (IH (onmessage parsed s)) as (Hst & Hids & Hch).
  { by rewrite onmessage_messageIds. }
  rewrite Hst, Hids, Hch, onmessage_messageIds.
  destruct (onmessage_cases parsed s) as [->|(i & id & status & Hid & ->)];
    [done|].
  split_and!; try done. cbn. apply lookup_insert_ne. congruence.
Qed.

Lemma untracked_items_ignore_pushes_witness :
  let s := {| extractedChallans := example_challans;
              messageStatuses := {[ 0 := sent; 1 := error ]};
              messageIds := {[ 0 := JStr "wamid.A" ]} |} in
  let push id status :=
    Normal (JObj [("type", JStr "status_update"); ("messageId", JStr id);
                  ("status", JStr status)]) in
  messageStatuses
    (foldl (λ s parsed, onmessage parsed s) s
       [push "wamid.A" "delivered"; push "wamid.B" "read"]) !! 1
  = Some error.
Proof.
  intros s push.
  exact (proj1 (untracked_items_ignore_pushes
                  [push "wamid.A" "delivered"; push "wamid.B" "read"] s 1 eq_refl)).
Defined.

(** ** The client: the page *)

Lemma accepted_with_recorded index id (w : world) :
  id ≠ EmptyString →
  record_sent index (accepted_with id) w
  = Some (update (setMessageStatuses (λ prev, <[index := sent]> prev))
            (update (setMessageIds (λ prev, <[index := JStr id]> prev)) w)).
Proof.
  intros Hid. unfold record_sent, accepted_with. cbn.
  by destruct (String.eqb_spec id EmptyString).
Qed.

(** X14. A file whose name passes the extension check is taken in two
    steps, and what other handlers do between them stays. The first step
    empties the batch, the statuses and the identifiers, so that right after
    it every pushed message is ignored. The second step, when the file has
    been read, sets the batch to what was extracted (or leaves it when
    reading failed) and keeps the statuses and identifiers as they are then.
    If nothing ran in between, every item of the new batch is idle, every
    button is enabled and pushes change nothing; but the continuation of a
    send that was in flight, running in between, leaves its status and its
    identifier on the new batch, whose item at that index is then shown as
    sent with its send button disabled. *)
Theorem upload_starts_afresh_unless_interleaved (ToString : json → string)
    (name : string) (read : completion workbook) (p : Page.page) :
  valid_file name = true →
  let started := Page.handleFileUpload_start name p in
  let extracted (q : Page.page) :=
    match read with
    | Normal wb => extractMobileNumbers ToString (convertedData wb)
    | Throw => extractedChallans (Page.app q)
    end in
  (Page.app started = handleFileUpload [] (Page.app p)
   ∧ Page.isProcessing started = true
   ∧ ∀ parsed, onmessage parsed (Page.app started) = Page.app started)
  ∧ (∀ q, let p' := (Page.handleFileUpload_resume ToString read q).1 in
       extractedChallans (Page.app p') = extracted q
       ∧ messageStatuses (Page.app p') = messageStatuses (Page.app q)
       ∧ messageIds (Page.app p') = messageIds (Page.app q)
       ∧ Page.isProcessing p' = false)
  ∧ (let p' := (Page.handleFileUpload ToString (Some name) read p).1 in
     p' = (Page.handleFileUpload_resume ToString read started).1
     ∧ (∀ index, status_of (Page.app p') index = idle
                 ∧ send_btn_disabled (status_of (Page.app p') index) = false)
     ∧ send_all_btn_disabled (Page.app p') = false
     ∧ (∀ parsed, onmessage parsed (Page.app p') = Page.app p'))
  ∧ (∀ index id now trace, id ≠ EmptyString →
       ∃ w', record_sent index (accepted_with id)
               {| ui := Page.app started; now := now; trace := trace |} = Some w'
             ∧ let p' := (Page.handleFileUpload_resume ToString read
                            (Page.with_app (ui w') started)).1 in
               extractedChallans (Page.app p') = extracted started
               ∧ messageIds (Page.app p') !! index = Some (JStr id)
               ∧ status_of (Page.app p') index = sent
               ∧ send_btn_disabled (status_of (Page.app p') index) = true).
Proof.
  intros Hvalid started extracted.
  assert (∀ q, let p' := (Page.handleFileUpload_resume ToString read q).1 in
            extractedChallans (Page.app p') = extracted q
            ∧ messageStatuses (Page.app p') = messageStatuses (Page.app q)
            ∧ messageIds (Page.app p') = messageIds (Page.app q)
            ∧ Page.isProcessing p' = false) as Hresume.
  { intros q. unfold Page.handleFileUpload_resume, extracted.
    destruct read as [wb|]; [|done].
    by destruct (Nat.ltb 0 (length (extractMobileNumbers ToString (convertedData wb)))). }
  assert (Page.handleFileUpload ToString (Some name) read p
          = Page.handleFileUpload_resume ToString read started) as Hsame.
  { unfold Page.handleFileUpload. by rewrite Hvalid. }
  rewrite Hsame. destruct (Hresume started) as (_ & Hst & Hids & _).
  cbn zeta in Hst, Hids.
  split; [|split; [exact Hresume|split]].
  - split_and!; [reflexivity|reflexivity|].
    intros parsed. by apply onmessage_no_identifiers.
  - cbn zeta. split_and!.
    + reflexivity.
    + intros index. unfold status_of. rewrite Hst. cbn. by rewrite lookup_empty.
    + unfold send_all_btn_disabled. by rewrite Hst.
    + intros parsed. by apply onmessage_no_identifiers.
  - intros index id now trace Hid. eexists. split.
    { by apply accepted_with_recorded. }
    cbn zeta.
    destruct (Hresume (Page.with_app
                (ui (update (setMessageStatuses (λ prev, <[index := sent]> prev))
                       (update (setMessageIds (λ prev, <[index := JStr id]> prev))
                          {| ui := Page.app started; now := now; trace := trace |})))
                started)) as (Hch & Hst' & Hids' & _).
    cbn zeta in Hch, Hst', Hids'.
    assert (status_of
              (Page.app (Page.handleFileUpload_resume ToString read
                 (Page.with_app
                    (ui (update (setMessageStatuses (λ prev, <[index := sent]> prev))
                       (update (setMessageIds (λ prev, <[index := JStr id]> prev))
                          {| ui := Page.app started; now := now; trace := trace |})))
                    started)).1) index = sent) as Hsent.
    { unfold status_of. rewrite Hst'. cbn. by rewrite lookup_insert_eq. }
    split_and!.
    + rewrite Hch. unfold extracted. by destruct read.
    + rewrite Hids'. cbn. apply lookup_insert_eq.
    + exact Hsent.
    + by rewrite Hsent.
Qed.

Lemma upload_starts_afresh_unless_interleaved_witness :
  let ToString := λ v, match v with JStr s => s | _ => EmptyString end in
  let p := {| Page.app := ui sent_world; Page.fileName := Some "may.xlsx";
              Page.isProcessing := false; Page.showDetails := true |} in
  let wb := {| SheetNames := ["June"];
               Sheets := λ _, [[("Violator Contact", JStr "9800000007")]] |} in
  let started := Page.handleFileUpload_start "june.CSV" p in
  status_of (Page.app (Page.handleFileUpload ToString (Some "june.CSV")
                         (Normal wb) p).1) 0 = idle
  ∧ ∃ w', record_sent 0 (accepted_with "wamid.old")
            {| ui := Page.app started; now := 0; trace := [] |} = Some w'
          ∧ let p' := (Page.handleFileUpload_resume ToString (Normal wb)
                         (Page.with_app (ui w') started)).1 in
            mobile <$> extractedChallans (Page.app p') = ["919800000007"]
            ∧ status_of (Page.app p') 0 = sent.
Proof.
  intros ToString p wb started.
  destruct (upload_starts_afresh_unless_interleaved ToString "june.CSV"
              (Normal wb) p eq_refl) as (_ & _ & (_ & Hidle & _) & Hleak).
  split; [exact (proj1 (Hidle 0))|].
  destruct (Hleak 0 "wamid.old" 0 [] ltac:(discriminate))
    as (w' & Hw' & Hbatch & _ & Hsent & _).
  exists w'. split; [exact Hw'|]. cbn zeta. split; [|exact Hsent].
  etrans; [exact (f_equal (fmap mobile) Hbatch)|reflexivity].
Defined.

(** X15. After a file that passes the extension check, the notice that no
    mobile number was found is on the page exactly when the results had
    been opened by an earlier file and this one gave no challan or could not
    be read: a first file without numbers gives no notice, and a file that
    cannot be read gives the notice if an earlier file had numbers. The
    results are on the page exactly when this file gave a challan. *)
Theorem no_numbers_notice (ToString : json → string) (name : string)
    (read : completion workbook) (p : Page.page) :
  valid_file name = true →
  let p' := (Page.handleFileUpload ToString (Some name) read p).1 in
  let found :=
    match read with
    | Normal wb => length (extractMobileNumbers ToString (convertedData wb))
    | Throw => 0
    end in
  Page.no_results_shown p' = Page.showDetails p && Nat.eqb found 0
  ∧ Page.results_shown p' = Nat.ltb 0 found.
Proof.
  intros Hvalid p' found. subst p' found. unfold Page.handleFileUpload.
  rewrite Hvalid. cbn [negb].
  unfold Page.handleFileUpload_resume, Page.no_results_shown, Page.results_shown.
  destruct read as [wb|].
  - destruct (Nat.ltb_spec 0
                (length (extractMobileNumbers ToString (convertedData wb))))
      as [Hsome|Hnone]; cbn [fst Page.app Page.showDetails extractedChallans].
    + rewrite (proj2 (Nat.eqb_neq _ 0)) by lia.
      rewrite (proj2 (Nat.ltb_lt 0 _)) by done. by rewrite !andb_false_r.
    + rewrite (proj2 (Nat.ltb_ge 0 _)) by done. by rewrite andb_false_r.
  - cbn. by rewrite andb_false_r, andb_true_r.
Qed.

Lemma no_numbers_notice_witness :
  let ToString := λ v, match v with JStr s => s | _ => EmptyString end in
  let empty := {| SheetNames := ["Sheet1"]; Sheets := λ _, [] |} in
  let may := {| SheetNames := ["Sheet1"];
                Sheets := λ _, [[("Violator Contact", JStr "9876543210")]] |} in
  let first :=
    (Page.handleFileUpload ToString (Some "empty.xlsx") (Normal empty)
       Page.initial).1 in
  let loaded :=
    (Page.handleFileUpload ToString (Some "may.xlsx") (Normal may) Page.initial).1 in
  let failed := (Page.handleFileUpload ToString (Some "broken.xlsx") Throw loaded).1 in
  Page.no_results_shown first = false
  ∧ Page.results_shown loaded = true
  ∧ Page.no_results_shown failed = true.
Proof.
  intros ToString empty may first loaded failed. split_and!.
  - exact (proj1 (no_numbers_notice ToString "empty.xlsx" (Normal empty)
                    Page.initial eq_refl)).
  - exact (proj2 (no_numbers_notice ToString "may.xlsx" (Normal may)
                    Page.initial eq_refl)).
  - exact (proj1 (no_numbers_notice ToString "broken.xlsx" Throw loaded eq_refl)).
Defined.

(** ** The client: the status shown and the report *)



(** X17. What is shown for an item agrees across the three places that
    read its status. The send button is disabled exactly when the chip reads
    Sending, Sent, Delivered or Read. A status that is none of the six known
    ones, such as a failure reported by the provider and pushed by the
    server, is shown as Not Sent, with the send button enabled and without
    text, and with three crosses in the report. *)
Theorem status_rendering (status : jsval) :
  (send_btn_disabled status = true
   ↔ getStatusLabel status ∈ ["Sending"; "Sent"; "Delivered"; "Read"])
  ∧ (send_btn_text status = []
     ↔ status ∉ [idle; sending; sent; delivered; read; error])
  ∧ (status ∉ [idle; sending; sent; delivered; read; error] →
     getStatusLabel status = "Not Sent"
     ∧ send_btn_disabled status = false
     ∧ progress status = 0).
Proof.
  unfold send_btn_disabled, getStatusLabel, send_btn_text, progress.
  cbn [flat_map fst snd app].
  destruct (strict_eq status idle) eqn:Ei;
    [apply strict_eq_str_r in Ei as ->; cbn; split_and!;
       [split; [done|]|split; [done|]|]; set_solver|].
  destruct (strict_eq status sending) eqn:Eg;
    [apply strict_eq_str_r in Eg as ->; cbn; split_and!;
       [split; [set_solver|done]|split; [done|]|]; set_solver|].
  destruct (strict_eq status sent) eqn:Es;
    [apply strict_eq_str_r in Es as ->; cbn; split_and!;
       [split; [set_solver|done]|split; [done|]|]; set_solver|].
  destruct (strict_eq status delivered) eqn:Ed;
    [apply strict_eq_str_r in Ed as ->; cbn; split_and!;
       [split; [set_solver|done]|split; [done|]|]; set_solver|].
  destruct (strict_eq status read) eqn:Er;
    [apply strict_eq_str_r in Er as ->; cbn; split_and!;
       [split; [set_solver|done]|split; [done|]|]; set_solver|].
  destruct (strict_eq status error) eqn:Ee;
    [apply strict_eq_str_r in Ee as ->; cbn; split_and!;
       [split; [done|]|split; [done|]|]; set_solver|].
  cbn. split_and!.
  - split; [done|]. set_solver.
  - split; [|done]. intros _. rewrite !not_elem_of_cons.
    split_and!; try apply not_elem_of_nil;
      intros ->; unfold idle, sending, sent, delivered, read, error in *;
      cbn in *; congruence.
  - done.
Qed.

(** ** From the callback to the item *)

Lemma strict_eq_eq a b : strict_eq a b = true → a = b.
Proof.
  destruct a as [[| x | x | x | |]|], b as [[| y | y | y | |]|]; cbn; try done.
  - by intros ->%Bool.eqb_prop.
  - by intros ->%Z.eqb_eq.
  - by intros ->%String.eqb_eq.
Qed.

Lemma Map_get_Map_set key k v (m : Map) :
  Map_get key (Map_set k v m) = if strict_eq k key then v else Map_get key m.
Proof.
  induction m as [|[k0 v0] rest IH]; cbn; [done|].
  destruct (strict_eq k0 k) eqn:E; cbn.
  - apply strict_eq_eq in E as ->. by destruct (strict_eq k key).
  - destruct (strict_eq k0 key) eqn:E0; [|exact IH].
    destruct (strict_eq k key) eqn:E1; [|done].
    pose proof E1 as E2. apply strict_eq_eq in E0, E1. subst. congruence.
Qed.

Lemma last_write_snoc key writes w :
  last_write key (writes ++ [w])
  = if strict_eq w.1 key then Some w.2 else last_write key writes.
Proof.
  unfold last_write. rewrite List.filter_app. cbn [List.filter].
  destruct (strict_eq w.1 key).
  - by rewrite last_snoc.
  - by rewrite app_nil_r.
Qed.

Lemma Map_get_perform key writes (m : Map) :
  Map_get key (perform writes m)
  = default (Map_get key m) (last_write key writes).
Proof.
  induction writes as [|w writes IH] using rev_ind; [done|].
  rewrite perform_app, last_write_snoc. cbn [perform foldl].
  rewrite Map_get_Map_set. destruct (strict_eq w.1 key); [done|exact IH].
Qed.

Lemma onmessage_wire_update (s : state) messageId status :
  onmessage (Normal (wire (StatusUpdate messageId status))) s
  = match find_index (messageIds s) messageId with
    | Some index => setMessageStatuses (λ prev, <[index := status]> prev) s
    | None => s
    end.
Proof.
  unfold wire. rewrite onmessage_status_update by done.
  by destruct messageId, status.
Qed.

Lemma find_index_tracks messageIds index id :
  tracks messageIds index id → find_index messageIds (str id) = Some index.
Proof.
  intros [Hid Hlowest].
  destruct (find_index messageIds (str id)) as [j|] eqn:E.
  - pose proof (find_index_least _ _ _ E) as Hleast.
    apply find_index_Some in E as (idj & Hj & Heq).
    apply strict_eq_eq in Heq. injection Heq as ->.
    destruct (Nat.lt_trichotomy j index) as [Hlt|[->|Hgt]]; [|done|].
    + by destruct (Hlowest _ _ Hlt Hj).
    + specialize (Hleast _ _ Hgt Hid). cbn in Hleast.
      by rewrite String.eqb_refl in Hleast.
  - apply find_index_None in E. destruct E. exists index, (JStr id).
    split; [done|]. cbn. apply String.eqb_refl.
Qed.

Lemma handle_all_messageIds messages (s : state) :
  messageIds (handle_all messages s) = messageIds s.
Proof.
  unfold handle_all. revert s.
  induction messages as [|m messages IH]; intros s; [done|].
  cbn [foldl]. by rewrite IH, onmessage_messageIds.
Qed.

Lemma handle_all_tracked (s : state) index id (writes : list (jsval * jsval)) :
  tracks (messageIds s) index id →
  messageStatuses (handle_all ((λ w, StatusUpdate w.1 w.2) <$> writes) s) !! index
  = match last_write (str id) writes with
    | Some status => Some status
    | None => messageStatuses s !! index
    end.
Proof.
  intros Htracks. induction writes as [|w writes IH] using rev_ind; [done|].
  rewrite fmap_app, last_write_snoc. unfold handle_all in *.
  rewrite foldl_app. cbn [fmap list_fmap foldl].
  set (s1 := foldl _ s _) in *.
  assert (messageIds s1 = messageIds s) as Hids by apply handle_all_messageIds.
  rewrite onmessage_wire_update, Hids.
  destruct (strict_eq w.1 (str id)) eqn:E.
  - apply strict_eq_eq in E as ->. rewrite (find_index_tracks _ _ _ Htracks).
    cbn. apply lookup_insert_eq.
  - destruct (find_index (messageIds s) w.1) as [j|] eqn:Ej; [|exact IH].
    cbn. rewrite lookup_insert_ne; [exact IH|]. intros ->.
    apply find_index_Some in Ej as (idj & Hj & Heq).
    destruct Htracks as [Hid _]. rewrite Hid in Hj. injection Hj as <-.
    apply strict_eq_eq in Heq. rewrite <- Heq in E. cbn in E.
    by rewrite String.eqb_refl in E.
Qed.

Lemma flat_map_replicate_1 {A B} (f : A → B) (l : list A) :
  flat_map (λ x, replicate 1 (f x)) l = f <$> l.
Proof. induction l as [|x l IH]; [done|]. cbn [flat_map]. by rewrite IH. Qed.

(** X18. From the callback to the item. When a callback arrives at the
    server while the component is connected with an open channel, and the
    component then handles what it received, the item that tracks an
    identifier (the first one the identifier is recorded for) shows the
    status that the callback wrote last for that identifier, which is the
    status the server store now holds for it; if the callback wrote nothing
    for the identifier, neither the item nor the store entry changes. This
    holds whatever the body of the callback, also when its processing ends
    in a fault. *)
Theorem callback_reaches_tracked_item (ToPropertyKey : jsval → string)
    (srv : server) (body : jsval) (ws : nat) (s : state) (index : nat) (id : string) :
  open_count ws (wss_clients srv) = 1 →
  tracks (messageIds s) index id →
  let after := step ToPropertyKey srv (WebhookPost body) in
  let s' := handle_all (received ws after.2) s in
  ∃ writes,
    Server.messageStatuses after.1 = perform writes (Server.messageStatuses srv)
    ∧ match last_write (str id) writes with
      | Some status =>
          messageStatuses s' !! index = Some status
          ∧ Map_get (str id) (Server.messageStatuses after.1) = status
      | None =>
          messageStatuses s' !! index = messageStatuses s !! index
          ∧ Map_get (str id) (Server.messageStatuses after.1)
            = Map_get (str id) (Server.messageStatuses srv)
      end.
Proof.
  intros Hopen Htracks after s'. subst after s'.
  destruct (step_store_performs ToPropertyKey srv (WebhookPost body))
    as (writes & Hstore & Hout).
  exists writes. split; [exact Hstore|].
  rewrite Hout, received_pushes, Hopen, flat_map_replicate_1.
  rewrite (handle_all_tracked s index id writes Htracks).
  rewrite Hstore, Map_get_perform.
  by destruct (last_write (str id) writes).
Qed.

Lemma callback_reaches_tracked_item_witness :
  let srv := {| Server.messageStatuses := [(str "wamid.A", str "sent")];
                wss_clients := [ {| handle := 1; readyState := OPEN |} ] |} in
  let body := envelope [notification ("wamid.A", str "delivered");
                        notification ("wamid.A", str "read")] in
  let after := step string_key srv (WebhookPost body) in
  let s' := handle_all (received 1 after.2) (ui sent_world) in
  ∃ writes,
    Server.messageStatuses after.1 = perform writes (Server.messageStatuses srv)
    ∧ match last_write (str "wamid.A") writes with
      | Some status =>
          messageStatuses s' !! 0 = Some status
          ∧ Map_get (str "wamid.A") (Server.messageStatuses after.1) = status
      | None =>
          messageStatuses s' !! 0 = messageStatuses (ui sent_world) !! 0
          ∧ Map_get (str "wamid.A") (Server.messageStatuses after.1)
            = Map_get (str "wamid.A") (Server.messageStatuses srv)
      end.
Proof.
  intros srv body after s'.
  assert (tracks (messageIds (ui sent_world)) 0 "wamid.A") as Htracks.
  { split; [reflexivity|]. intros lower id' Hlt. lia. }
  exact (callback_reaches_tracked_item string_key srv body 1 (ui sent_world)
           0 "wamid.A" eq_refl Htracks).
Defined.

(** ** The outcome of a send *)

Section OutcomeFacts.

Variable env : environment.
Variable formatChallanMessage : ChallanData → string.
Hypothesis credentials : credentials_missing env = false.

Lemma sendWhatsAppMessage_status a mobile challanData index w :
  messageStatuses
    (ui (sendWhatsAppMessage env formatChallanMessage a mobile challanData index w))
    !! index
  = Some (if succeeds a then sent else error).
Proof.
  unfold sendWhatsAppMessage, succeeds. rewrite credentials.
  set (w1 := update _ w). set (w2 := await_post index _ (to_template a) w1).
  destruct (completes (settles (to_template a))) eqn:E1.
  { destruct (record_sent_completes index _ w2 E1) as (w3 & H3). rewrite H3.
    apply record_sent_Some in H3 as (_ & _ & _ & -> & _). apply lookup_insert_eq. }
  rewrite (record_sent_fails index _ w2 E1).
  set (w3 := await_post index _ (to_text a) w2).
  destruct (completes (settles (to_text a))) eqn:E2.
  { destruct (record_sent_completes index _ w3 E2) as (w4 & H4). rewrite H4.
    apply record_sent_Some in H4 as (_ & _ & _ & -> & _). apply lookup_insert_eq. }
  rewrite (record_sent_fails index _ w3 E2). cbn. apply lookup_insert_eq.
Qed.

Lemma send_loop_statuses provider late n i rest w :
  n = i + length rest →
  let w' := send_loop env formatChallanMessage provider late n i rest w in
  (∀ j, i ≤ j < n →
     messageStatuses (ui w') !! j
     = Some (if succeeds (provider j) then sent else error))
  ∧ (∀ j, j < i ∨ n ≤ j →
       messageStatuses (ui w') !! j = messageStatuses (ui w) !! j)
  ∧ now w + pacing * (length rest - 1) ≤ now w'.
Proof.
  revert i w. induction rest as [|challan rest IH]; intros i w Hn; cbn [send_loop].
  { split_and!; [intros j Hj; cbn in Hn; lia|done|cbn; lia]. }
  cbn [length] in Hn.
  pose proof (sendWhatsAppMessage_status (provider i) (mobile challan)
                (data challan) i w) as Hi.
  destruct (sendWhatsAppMessage_spec env formatChallanMessage (provider i)
              (mobile challan) (data challan) i w)
    as (_ & Hother & _ & added & [_ Hnow] & _).
  set (w1 := sendWhatsAppMessage _ _ _ _ _ _ w) in *.
  set (w2 := if i <? n - 1 then await_timeout 1000 (late i) w1 else w1).
  assert (ui w2 = ui w1) as Hui by (unfold w2; by destruct (i <? n - 1)).
  assert (now w + pacing * (length rest - 0) ≤ now w2 + pacing * (length rest - 1))
    as Hclock.
  { unfold w2, pacing. destruct (Nat.ltb_spec i (n - 1)); cbn; lia. }
  destruct (IH (S i) w2) as (Hin & Hout & Hlate); [lia|].
  rewrite Nat.sub_0_r in Hclock. split_and!.
  - intros j Hj. destruct (decide (j = i)) as [->|Hne].
    + rewrite Hout by lia. by rewrite Hui.
    + apply Hin. lia.
  - intros j Hj. rewrite Hout by lia. rewrite Hui. apply Hother. lia.
  - cbn [length]. rewrite Nat.sub_succ, Nat.sub_0_r. lia.
Qed.

Lemma sendWhatsAppMessage_among_status (meanwhile1 meanwhile2 : state → state)
    a mobile challanData index w :
  messageStatuses
    (ui (sendWhatsAppMessage_among env formatChallanMessage meanwhile1 meanwhile2
           a mobile challanData index w)) !! index
  = Some (if succeeds a then sent else error).
Proof.
  unfold sendWhatsAppMessage_among, succeeds. rewrite credentials.
  set (w2 := update meanwhile1 _).
  destruct (completes (settles (to_template a))) eqn:E1.
  { destruct (record_sent_completes index _ w2 E1) as (w3 & H3). rewrite H3.
    apply record_sent_Some in H3 as (_ & _ & _ & -> & _). apply lookup_insert_eq. }
  rewrite (record_sent_fails index _ w2 E1).
  set (w3 := update meanwhile2 _).
  destruct (completes (settles (to_text a))) eqn:E2.
  { destruct (record_sent_completes index _ w3 E2) as (w4 & H4). rewrite H4.
    apply record_sent_Some in H4 as (_ & _ & _ & -> & _). apply lookup_insert_eq. }
  rewrite (record_sent_fails index _ w3 E2).
  cbn [alert update ui setMessageStatuses messageStatuses].
  apply lookup_insert_eq.
Qed.

Lemma sendWhatsAppMessage_among_other (meanwhile1 meanwhile2 : state → state)
    a mobile challanData index w t :
  t ≠ index →
  (∀ s, messageStatuses (meanwhile1 s) !! t = messageStatuses s !! t) →
  (∀ s, messageStatuses (meanwhile2 s) !! t = messageStatuses s !! t) →
  messageStatuses
    (ui (sendWhatsAppMessage_among env formatChallanMessage meanwhile1 meanwhile2
           a mobile challanData index w)) !! t
  = messageStatuses (ui w) !! t.
Proof.
  intros Hne H1 H2. unfold sendWhatsAppMessage_among. rewrite credentials.
  set (w2 := update meanwhile1 _).
  assert (messageStatuses (ui w2) !! t = messageStatuses (ui w) !! t) as Hw2.
  { unfold w2. cbn [update await_post ui]. rewrite H1. cbn.
    by apply lookup_insert_ne. }
  destruct (record_sent index (settles (to_template a)) w2) as [w3|] eqn:E1.
  { apply record_sent_Some in E1 as (_ & _ & _ & -> & _).
    by rewrite lookup_insert_ne. }
  set (w3 := update meanwhile2 _).
  assert (messageStatuses (ui w3) !! t = messageStatuses (ui w) !! t) as Hw3.
  { unfold w3. cbn [update await_post ui]. by rewrite H2. }
  destruct (record_sent index (settles (to_text a)) w3) as [w4|] eqn:E2.
  { apply record_sent_Some in E2 as (_ & _ & _ & -> & _).
    by rewrite lookup_insert_ne. }
  cbn [alert update ui setMessageStatuses messageStatuses].
  by rewrite lookup_insert_ne.
Qed.

Lemma send_loop_among_statuses (meanwhile : nat → nat → state → state)
    provider late n t i rest w :
  n = i + length rest →
  leaves_alone meanwhile n t →
  let w' := send_loop_among env formatChallanMessage meanwhile provider late
              n i rest w in
  (i ≤ t < n →
     messageStatuses (ui w') !! t
     = Some (if succeeds (provider t) then sent else error))
  ∧ (t < i → messageStatuses (ui w') !! t = messageStatuses (ui w) !! t).
Proof.
  intros Hn Halone. revert i w Hn.
  induction rest as [|challan rest IH]; intros i w Hn; cbn [send_loop_among].
  { split; [cbn in Hn; lia|done]. }
  cbn [length] in Hn.
  set (w1 := sendWhatsAppMessage_among _ _ _ _ _ _ _ _ w).
  set (w2 := update (meanwhile i 2)
               (if i <? n - 1 then await_timeout 1000 (late i) w1 else w1)).
  destruct (IH (S i) w2) as [Hin Hout]; [lia|].
  assert (t ≤ i → t < n →
          messageStatuses (ui w2) !! t = messageStatuses (ui w1) !! t) as Hpause.
  { intros Hle Hlt. unfold w2. cbn [update ui]. rewrite Halone.
    - by destruct (i <? n - 1).
    - lia.
    - destruct (decide (t = i)) as [->|Hne]; [right; lia|left; lia]. }
  split.
  - intros Ht. destruct (decide (t = i)) as [->|Hne].
    + rewrite Hout by lia. rewrite Hpause by lia.
      apply sendWhatsAppMessage_among_status.
    + apply Hin. lia.
  - intros Ht. rewrite Hout by lia. rewrite Hpause by lia.
    apply sendWhatsAppMessage_among_other; [lia| |];
      intros s; apply Halone; (lia || (left; lia)).
Qed.

Lemma update_undisturbed j k (w : world) : update (undisturbed j k) w = w.
Proof. by destruct w. Qed.

Lemma sendWhatsAppMessage_undisturbed i a mobile challanData index w :
  sendWhatsAppMessage_among env formatChallanMessage (undisturbed i 0)
    (undisturbed i 1) a mobile challanData index w
  = sendWhatsAppMessage env formatChallanMessage a mobile challanData index w.
Proof.
  unfold sendWhatsAppMessage_among, sendWhatsAppMessage.
  by rewrite !update_undisturbed.
Qed.

Lemma send_loop_undisturbed provider late n i rest w :
  send_loop_among env formatChallanMessage undisturbed provider late n i rest w
  = send_loop env formatChallanMessage provider late n i rest w.
Proof.
  revert i w. induction rest as [|challan rest IH]; intros i w; [done|].
  cbn [send_loop_among send_loop].
  by rewrite sendWhatsAppMessage_undisturbed, update_undisturbed, IH.
Qed.

End OutcomeFacts.

Lemma prints_accepted_with id : prints_identifier (accepted_with id).
Proof. intros data id' [= <-] [= <-]. done. Qed.

Lemma prints_Rejected : prints_identifier Rejected.
Proof. intros data id' [=]. Qed.

(** X19. Once confirmed, and with credentials, a batch marks every item:
    whatever other handlers do to the state while the requests and the
    pauses are awaited, the send of an item ends by marking it [sent] when
    one of its two requests was resolved with a body and [error] otherwise,
    never [sending], and the item is still so marked when the batch ends
    unless another handler wrote its status after its send had ended. This
    is stated for identifiers that the log line following their recording
    can print; with no other handler, the batch is the one of
    [sendAllMessages]. *)
Theorem batch_marks_every_item
    (env : environment) (formatChallanMessage : ChallanData → string)
    (meanwhile : nat → nat → state → state)
    (provider : nat → answers) (late : nat → nat) (w : world) :
  credentials_missing env = false →
  (∀ i, prints_identifier (settles (to_template (provider i)))
        ∧ prints_identifier (settles (to_text (provider i)))) →
  let n := length (extractedChallans (ui w)) in
  let w' := sendAllMessages_among env formatChallanMessage meanwhile true
              provider late w in
  (∀ i mobile challanData v,
     messageStatuses
       (ui (sendWhatsAppMessage_among env formatChallanMessage (meanwhile i 0)
              (meanwhile i 1) (provider i) mobile challanData i v)) !! i
     = Some (if succeeds (provider i) then sent else error))
  ∧ (∀ i, i < n → leaves_alone meanwhile n i →
       messageStatuses (ui w') !! i
       = Some (if succeeds (provider i) then sent else error))
  ∧ sendAllMessages_among env formatChallanMessage undisturbed true provider late w
    = sendAllMessages env formatChallanMessage true provider late w.
Proof.
  intros Hcred _ n w'. subst n w'. split_and!.
  - intros i mobile challanData v.
    by apply sendWhatsAppMessage_among_status.
  - intros i Hi Halone. unfold sendAllMessages_among.
    destruct (Nat.eqb_spec (length (extractedChallans (ui w))) 0) as [Hlen|Hlen];
      [lia|].
    rewrite Hcred. cbn [negb]. set (w0 := confirm _ true w).
    destruct (send_loop_among_statuses env formatChallanMessage Hcred meanwhile
                provider late (length (extractedChallans (ui w))) i 0
                (extractedChallans (ui w)) w0 eq_refl Halone) as [Hin _].
    apply Hin. lia.
  - unfold sendAllMessages_among, sendAllMessages.
    destruct (Nat.eqb _ 0); [done|]. destruct (credentials_missing env); [done|].
    cbn [negb]. apply send_loop_undisturbed.
Qed.

Lemma batch_marks_every_item_witness :
  let push :=
    Normal (JObj [("type", JStr "status_update"); ("messageId", JStr "wamid.A");
                  ("status", JStr "delivered")]) in
  let meanwhile (j k : nat) (s : state) :=
    if Nat.eqb j 0 && Nat.eqb k 2 then onmessage push s else s in
  let provider (i : nat) := if Nat.eqb i 0 then accepting "wamid.A" else rejecting in
  let w' := sendAllMessages_among example_env example_format meanwhile true
              provider (λ _, 0) fresh_world in
  messageStatuses (ui w') !! 0 = Some delivered
  ∧ messageStatuses (ui w') !! 1 = Some error.
Proof.
  intros push meanwhile provider w'. split; [reflexivity|].
  assert (∀ i, prints_identifier (settles (to_template (provider i)))
               ∧ prints_identifier (settles (to_text (provider i)))) as Hprints.
  { intros i. unfold provider. destruct (Nat.eqb i 0); cbn.
    - split; [apply prints_accepted_with|apply prints_Rejected].
    - split; apply prints_Rejected. }
  destruct (batch_marks_every_item example_env example_format meanwhile provider
              (λ _, 0) fresh_world eq_refl Hprints) as (_ & Hmarked & _).
  apply (Hmarked 1).
  - cbn. lia.
  - intros j k s Hj Hlater. unfold meanwhile.
    destruct (Nat.eqb_spec j 0) as [->|Hne]; [|done]. cbn in Hj. lia.
Defined.

(** X20. Once confirmed, and with credentials, a batch of n items takes at
    least n - 1 pacing intervals, however fast the provider answers and
    whether the requests succeed or not. *)
Theorem batch_takes_its_time
    (env : environment) (formatChallanMessage : ChallanData → string)
    (provider : nat → answers) (late : nat → nat) (w : world) :
  credentials_missing env = false →
  let w' := sendAllMessages env formatChallanMessage true provider late w in
  now w + pacing * (length (extractedChallans (ui w)) - 1) ≤ now w'.
Proof.
  intros Hcred w'. subst w'. unfold sendAllMessages.
  destruct (Nat.eqb_spec (length (extractedChallans (ui w))) 0) as [Hlen|Hlen].
  { rewrite Hlen. cbn. lia. }
  rewrite Hcred. cbn [negb]. set (w0 := confirm _ true w).
  destruct (send_loop_statuses env formatChallanMessage Hcred provider late
              (length (extractedChallans (ui w))) 0 (extractedChallans (ui w)) w0
              eq_refl) as (_ & _ & Hclock).
  exact Hclock.
Qed.

Lemma batch_takes_its_time_witness :
  now fresh_world + pacing * 1
  ≤ now (sendAllMessages example_env example_format true (λ _, rejecting)
           (λ _, 0) fresh_world).
Proof.
  exact (batch_takes_its_time example_env example_format (λ _, rejecting)
           (λ _, 0) fresh_world eq_refl).
Defined.

(** X21. With credentials, a send makes the templated request, and makes
    the free-text request after it when the request was rejected, or was
    resolved with a body that is [null] or [undefined]: in that case the
    provider had accepted the templated message and the destination is sent
    the text as well. Otherwise, when the identifier that the body carries
    (if it carries one) can be printed by the log line that follows its
    recording, only the templated request is made and the item is marked
    [sent]. No other request is made. *)
Theorem fallback_exactly_after_failure
    (env : environment) (formatChallanMessage : ChallanData → string)
    (a : answers) (mobile : string) (challanData : ChallanData) (index : nat)
    (w : world) :
  credentials_missing env = false →
  let w' := sendWhatsAppMessage env formatChallanMessage a mobile challanData index w in
  let failed :=
    settles (to_template a) = Rejected
    ∨ settles (to_template a) = Resolved None
    ∨ settles (to_template a) = Resolved (Some JNull) in
  (failed →
     requests_for index (trace w')
     = requests_for index (trace w)
       ++ [ TemplateMessage mobile (TEMPLATE_NAME env);
            TextMessage mobile (formatChallanMessage challanData) ])
  ∧ (¬ failed → prints_identifier (settles (to_template a)) →
       requests_for index (trace w')
       = requests_for index (trace w)
         ++ [ TemplateMessage mobile (TEMPLATE_NAME env) ]
       ∧ messageStatuses (ui w') !! index = Some sent).
Proof.
  intros Hcred w' failed. subst w' failed.
  pose proof (sendWhatsAppMessage_status env formatChallanMessage Hcred a mobile
                challanData index w) as Hstatus.
  revert Hstatus. unfold sendWhatsAppMessage, succeeds. rewrite Hcred.
  set (w1 := update (setMessageStatuses (λ prev, <[index := sending]> prev)) w).
  set (w2 := await_post index _ (to_template a) w1).
  assert (requests_for index (trace w2)
          = requests_for index (trace w)
            ++ [TemplateMessage mobile (TEMPLATE_NAME env)]) as H2.
  { unfold w2, w1. cbn [await_post update trace]. rewrite requests_for_app.
    cbn. by rewrite Nat.eqb_refl. }
  destruct (completes (settles (to_template a))) eqn:E1.
  - destruct (record_sent_completes index _ w2 E1) as (w3 & H3). rewrite H3.
    intros Hstatus. split.
    + intros Hfailed%completes_false. congruence.
    + intros _ _. apply record_sent_Some in H3 as (-> & _). by rewrite H2.
  - rewrite (record_sent_fails index _ w2 E1). intros _. split.
    + intros _. set (w3 := await_post index _ (to_text a) w2).
      assert (requests_for index (trace w3)
              = requests_for index (trace w)
                ++ [TemplateMessage mobile (TEMPLATE_NAME env);
                    TextMessage mobile (formatChallanMessage challanData)]) as H3.
      { unfold w3. cbn [await_post trace]. rewrite requests_for_app, H2.
        cbn. rewrite Nat.eqb_refl. by rewrite <- app_assoc. }
      destruct (record_sent index (settles (to_text a)) w3) as [w4|] eqn:E2.
      * apply record_sent_Some in E2 as (-> & _). exact H3.
      * cbn [alert update trace]. rewrite requests_for_app, H3. cbn.
        by rewrite app_nil_r.
    + intros Hnot _. destruct Hnot. by apply completes_false.
Qed.

Lemma fallback_exactly_after_failure_witness :
  let a := {| to_template := {| took := 5; settles := Resolved (Some JNull) |};
              to_text := {| took := 7; settles := accepted_with "wamid.T" |} |} in
  requests_for 0
    (trace (sendWhatsAppMessage example_env example_format a "919800000001" [] 0
              fresh_world))
  = [ TemplateMessage "919800000001" "hello_world";
      TextMessage "919800000001" "Traffic Challan Notification" ]
  ∧ requests_for 0
      (trace (sendWhatsAppMessage example_env example_format (accepting "wamid.A")
                "919800000001" [] 0 fresh_world))
    = [ TemplateMessage "919800000001" "hello_world" ].
Proof.
  intros a. split.
  - exact (proj1 (fallback_exactly_after_failure example_env example_format a
                    "919800000001" [] 0 fresh_world eq_refl)
             (or_intror (or_intror eq_refl))).
  - apply (proj2 (fallback_exactly_after_failure example_env example_format
                    (accepting "wamid.A") "919800000001" [] 0 fresh_world eq_refl)).
    + intros [H|[H|H]]; discriminate H.
    + intros data id [= <-] [= <-]. reflexivity.
Defined.



(** ** What the snapshot is for *)

(** X23. What was broadcast while the component was not connected is not
    made up for. A component that connects after some callbacks were
    processed receives one message, the snapshot of the store as it then
    is; handling it changes nothing, so that its items keep the statuses they
    had, whatever the store holds for their identifiers. *)
Theorem snapshot_does_not_recover_updates (ToPropertyKey : jsval → string)
    (srv : server) (before : list event) (ws : nat) (s : state) :
  ws ∉ handle <$> wss_clients srv →
  Forall (λ ev, ev ≠ Connection ws) before →
  let after := run ToPropertyKey srv (before ++ [Connection ws]) in
  received ws after.2
  = [Initial (api_statuses ToPropertyKey (Server.messageStatuses after.1))]
  ∧ handle_all (received ws after.2) s = s.
Proof.
  intros Hfresh Hbefore after. subst after.
  destruct (run_received_none ToPropertyKey srv before ws
              (not_member_not_open _ _ Hfresh) Hbefore) as [Hnone _].
  rewrite run_app. destruct (run ToPropertyKey srv before) as [srv1 out1].
  cbn [fst snd] in *. cbn [run step fst snd Server.messageStatuses].
  rewrite !received_app, Hnone. unfold on_connection, received. cbn.
  rewrite Nat.eqb_refl. done.
Qed.

Lemma snapshot_does_not_recover_updates_witness :
  let before :=
    [WebhookPost (envelope [notification ("wamid.A", str "delivered")])] in
  let after := run string_key initial_server (before ++ [Connection 1]) in
  Map_get (str "wamid.A") (Server.messageStatuses after.1) = delivered
  ∧ handle_all (received 1 after.2) (ui sent_world) = ui sent_world
  ∧ status_of (ui sent_world) 0 = sent.
Proof.
  intros before after.
  destruct (snapshot_does_not_recover_updates string_key initial_server before 1
              (ui sent_world)) as [_ Hsame].
  - cbn. apply not_elem_of_nil.
  - repeat constructor; discriminate.
  - split_and!; [reflexivity|exact Hsame|reflexivity].
Defined.
